(** * Anomaly_Detection_Intel: ranking metrics and the CUSUM detector

    A shallow embedding of the helper functions that the course notebooks
    define themselves:

    - [precision_at_n] and [custom_average_precision]
      (Evaluating_Anomaly_Detection_student.ipynb),
    - the adjusted-score expression [(x - frac) / (1 - frac)] of the same
      notebook,
    - [cusum] (the time-series notebook).

    Conventions of the embedding.
    - Python floats are modelled by exact rationals [Q]: rounding is not
      modelled, and equality of computed numbers is [Qeq].  The values that
      NumPy division produces outside the rationals ([nan], [inf], [-inf])
      are kept in [npfloat].
    - Python ints are [Z]; lists and one-dimensional arrays are [list].
    - A call either returns a value or raises a Python exception:
      [outcome].  Every primitive that can raise in Python can raise here.
    - Labels are [bool]; inside [custom_average_precision] NumPy stores them
      as the floats 0.0 and 1.0, which compare and add up like [false] and
      [true]. *)

From Stdlib Require Import String.
From Stdlib Require Import List ZArith QArith Qminmax Bool Lia Lqa.
From Stdlib Require Import Permutation Sorted Morphisms.
Import ListNotations.

Local Open Scope Z_scope.

(** ** Outcomes of a Python call *)

Inductive exn : Type :=
| ZeroDivisionError
| IndexError
| ValueError.

Inductive outcome (A : Type) : Type :=
| Returns (a : A)
| Raises (e : exn).

Arguments Returns {A} a.
Arguments Raises {A} e.

Definition bind {A B : Type} (c : outcome A) (k : A -> outcome B) : outcome B :=
  match c with
  | Returns a => k a
  | Raises e => Raises e
  end.

Notation "x <- c ;; k" := (bind c (fun x => k))
  (at level 61, c at next level, right associativity).

(** A list comprehension whose body may raise: the first exception wins. *)
Fixpoint comprehension {A B : Type} (f : A -> outcome B) (l : list A)
  : outcome (list B) :=
  match l with
  | [] => Returns []
  | a :: l' => b <- f a ;; bs <- comprehension f l' ;; Returns (b :: bs)
  end.

(** ** Python and NumPy primitives *)

Definition Qltb (x y : Q) : bool := negb (Qle_bool y x).

(** [zip] stops at the end of the shorter argument. *)
Definition zip {A B : Type} (l : list A) (l' : list B) : list (A * B) :=
  combine l l'.

(** [p < q] on [(score, label)] tuples: the first components decide unless
    they are equal, then the labels decide, with [False < True]. *)
Definition tuple_lt (p q : Q * bool) : bool :=
  if Qeq_bool (fst p) (fst q)
  then negb (snd p) && snd q
  else Qltb (fst p) (fst q).

(** [sorted] is a stable sort that only uses [<].  Tuples that compare equal
    carry the same label and equal scores, so every stable sort returns the
    same labels in the same order; it is modelled by stable insertion. *)
Fixpoint insert (x : Q * bool) (l : list (Q * bool)) : list (Q * bool) :=
  match l with
  | [] => [x]
  | y :: l' => if tuple_lt y x then y :: insert x l' else x :: y :: l'
  end.

Definition sorted (l : list (Q * bool)) : list (Q * bool) :=
  fold_right insert [] l.

(** [range(a, b)] *)
Definition range (a b : Z) : list Z :=
  map (fun i => a + Z.of_nat i) (seq 0 (Z.to_nat (b - a))).

(** [l[:n]]; a negative [n] counts from the end. *)
Definition slice_to {A : Type} (l : list A) (n : Z) : list A :=
  if n <? 0
  then firstn (Z.to_nat (Z.of_nat (length l) + n)) l
  else firstn (Z.to_nat n) l.

(** [sum] of a list of booleans: [True] counts 1, starting from 0. *)
Definition sum (l : list bool) : Z :=
  fold_left (fun acc b => acc + Z.b2z b) l 0.

(** [a / n] on Python numbers. *)
Definition truediv (a n : Z) : outcome Q :=
  if n =? 0 then Raises ZeroDivisionError
  else Returns (inject_Z a / inject_Z n)%Q.

(** NumPy float64 values as far as the code can produce them. *)
Inductive npfloat : Type :=
| Finite (q : Q)
| PosInf
| NegInf
| NaN.

(** [x / y] on NumPy scalars: a zero divisor gives [nan] or an infinity
    (with a warning), never an exception. *)
Definition np_truediv (x y : Q) : npfloat :=
  if Qeq_bool y 0 then
    if Qeq_bool x 0 then NaN
    else if Qltb 0 x then PosInf else NegInf
  else Finite (x / y)%Q.

Definition np_sum (l : list Q) : Q :=
  fold_left Qplus l 0%Q.

Definition b2q (b : bool) : Q := if b then 1%Q else 0%Q.

(** [a * b] on one-dimensional arrays, with broadcasting of a length-one
    operand; other length mismatches raise. *)
Definition np_mul (a b : list Q) : outcome (list Q) :=
  if (length a =? length b)%nat then
    Returns (map (fun p => (fst p * snd p)%Q) (combine a b))
  else match a, b with
       | [x], _ => Returns (map (fun y => (x * y)%Q) b)
       | _, [y] => Returns (map (fun x => (x * y)%Q) a)
       | _, _ => Raises ValueError
       end.

(** [arr[:, 1]] of [np.array(rows)]: an empty list of rows gives a
    one-dimensional array, and indexing it with two indices raises. *)
Definition column1 (rows : list (Q * bool)) : outcome (list bool) :=
  match rows with
  | [] => Raises IndexError
  | _ => Returns (map snd rows)
  end.

(** ** Precision at n *)

Definition precision_at_n (y_is_anomaly_true : list bool) (y_scores : list Q)
    (n_max : Z) : outcome (list Q) :=
  let n_max := if n_max =? 0 then Z.of_nat (length y_scores) else n_max in
  let is_anomaly_sorted_by_score :=
    map snd (sorted (zip y_scores y_is_anomaly_true)) in
  comprehension
    (fun n => truediv (sum (slice_to is_anomaly_sorted_by_score n)) n)
    (range 1 (n_max + 1)).

(** ** Average precision *)

Definition custom_average_precision (y_is_anomaly_true : list bool)
    (y_scores : list Q) : outcome npfloat :=
  let sorted_scores_and_truth := sorted (zip y_scores y_is_anomaly_true) in
  is_anomaly <- column1 sorted_scores_and_truth ;;
  p_at_n <- precision_at_n is_anomaly y_scores 0 ;;
  weighted <- np_mul (map b2q is_anomaly) p_at_n ;;
  Returns (np_truediv (np_sum weighted) (np_sum (map b2q is_anomaly))).

(** ** Adjusted score

    The notebook computes
    [adj_ave_precision = (ave_precision - frac_anomalies) / (1 - frac_anomalies)]
    on NumPy scalars. *)
Definition adj_ave_precision (ave_precision frac_anomalies : Q)
  : outcome npfloat :=
  Returns (np_truediv (ave_precision - frac_anomalies) (1 - frac_anomalies)).

Definition lecture_scores : list Q :=
  [(-3598 # 100000); (-33510 # 1000000); (-5384 # 1000000); (330 # 1000000)]%Q.

Definition lecture_labels : list bool := [true; false; true; false].

(** ** CUSUM *)

(** [max(a, b)] and [min(a, b)] return [a] unless [b] is strictly beyond. *)
Definition py_max (a b : Q) : Q := if Qltb a b then b else a.
Definition py_min (a b : Q) : Q := if Qltb b a then b else a.

Section Cusum.

(** The type of the index labels of the data frame (dates in the
    notebook). *)
Context {I : Type}.

(** A one-column data frame: index label and value of every row. *)
Definition frame : Type := list (I * Q).

(** A row of the frame returned by [cusum]. *)
Record cusum_row : Type := mk_row {
  row_index : I;
  row_value : Q;
  High_Cusum : Q;
  Low_Cusum : Q
}.

(** The local variables of [cusum] that the loop updates. *)
Record locals : Type := mk_locals {
  high_sum : Q;
  low_sum : Q;
  anomalies : list (I * Q);
  high_sum_final : list Q;
  low_sum_final : list Q
}.

Definition locals_init : locals :=
  {| high_sum := 0; low_sum := 0; anomalies := [];
     high_sum_final := []; low_sum_final := [] |}.

Definition loop_body (mean shift threshold : Q) (st : locals) (row : I * Q)
  : locals :=
  let item := snd row in
  let high_sum' := py_max 0 (high_sum st + item - mean - shift)%Q in
  let low_sum' := py_min 0 (low_sum st + item - mean + shift)%Q in
  {| high_sum := high_sum';
     low_sum := low_sum';
     anomalies :=
       if Qltb threshold high_sum' || Qltb low_sum' (- threshold)%Q
       then anomalies st ++ [(fst row, item)]
       else anomalies st;
     high_sum_final := high_sum_final st ++ [high_sum'];
     low_sum_final := low_sum_final st ++ [low_sum'] |}.

(** [data.assign(High_Cusum=..., Low_Cusum=...)]: a new column must have
    as many entries as the frame has rows. *)
Definition assign (data : frame) (highs lows : list Q)
  : outcome (list cusum_row) :=
  if ((length highs =? length data) && (length lows =? length data))%nat
  then Returns (map (fun r => mk_row (fst (fst r)) (snd (fst r))
                                     (fst (snd r)) (snd (snd r)))
                    (combine data (combine highs lows)))
  else Raises ValueError.

Definition cusum (data : frame) (mean shift threshold : Q)
  : outcome (list cusum_row * list (I * Q)) :=
  let st := fold_left (loop_body mean shift threshold) data locals_init in
  cusum <- assign data (high_sum_final st) (low_sum_final st) ;;
  Returns (cusum, anomalies st).

(** *** The detector as the specification words it *)

(** The running pair after each point, from the pair [(hs, ls)] before the
    first one. *)
Fixpoint running_sums (mean shift hs ls : Q) (values : list Q)
  : list (Q * Q) :=
  match values with
  | [] => []
  | v :: vs =>
      let hs' := Qmax 0 (hs + v - mean - shift)%Q in
      let ls' := Qmin 0 (ls + v - mean + shift)%Q in
      (hs', ls') :: running_sums mean shift hs' ls' vs
  end.

(** A row is flagged when one of its sums is beyond the threshold. *)
Definition flagged (threshold : Q) (r : cusum_row) : bool :=
  Qltb threshold (High_Cusum r) || Qltb (Low_Cusum r) (- threshold)%Q.

Definition point (r : cusum_row) : I * Q := (row_index r, row_value r).

(** Every input row together with the running pair at that row. *)
Definition rows_of (mean shift : Q) (data : frame) : list cusum_row :=
  map (fun r => mk_row (fst (fst r)) (snd (fst r))
                       (fst (snd r)) (snd (snd r)))
      (combine data (running_sums mean shift 0 0 (map snd data))).

End Cusum.

Arguments frame I : clear implicits.
Arguments cusum_row I : clear implicits.
Arguments locals I : clear implicits.

(** ** The metrics as the specification words them *)

(** Number of true labels in a list. *)
Definition count_true (l : list bool) : nat :=
  length (filter (fun b => b) l).

(** P@n of a ranked list of labels: the number of anomalies among the first
    [n] entries, over [n]. *)
Definition p_at (ranked : list bool) (n : nat) : Q :=
  (inject_Z (Z.of_nat (count_true (firstn n ranked)))
   / inject_Z (Z.of_nat n))%Q.

(** The length that [precision_at_n] computes over: [n_max], or the number
    of scores when [n_max] is zero. *)
Definition effective_n_max (y_scores : list Q) (n_max : Z) : Z :=
  if n_max =? 0 then Z.of_nat (length y_scores) else n_max.

(** [(score, label)] tuples in the order of the sort: by score, and among
    equal scores [False] before [True]. *)
Definition tuple_le (p q : Q * bool) : Prop :=
  (fst p < fst q)%Q \/ (fst p == fst q /\ Bool.le (snd p) (snd q))%Q.

Definition score_le (p q : Q * bool) : Prop := (fst p <= fst q)%Q.

(** Average precision as the specification words it: the sum of P@n over
    the ranks, in ascending order of score, that hold an anomaly, divided by
    the number of anomalies. *)
Definition anomaly_ranks (ranked : list bool) : list nat :=
  filter (fun n => nth (n - 1) ranked false) (seq 1 (length ranked)).

Definition average_precision_spec (labels : list bool) (scores : list Q) : Q :=
  let ranked := map snd (sorted (zip scores labels)) in
  (fold_right Qplus 0 (map (p_at ranked) (anomaly_ranks ranked))
   / inject_Z (Z.of_nat (count_true labels)))%Q.

(** ** Adjusted P@n

    The notebook cell that follows the definition of the metrics computes
    [num_anomalies = sum(df['anomaly'])], [num_points = df['anomaly'].size],
    [frac_anomalies = num_anomalies / num_points], the P@n curve, and
    [adj_p_at_n = (p_at_n - frac_anomalies) / (1 - frac_anomalies)], the last
    one element by element on a NumPy array.  [sum] of an empty column is
    the Python integer 0, and dividing it by the size 0 raises. *)

Definition frac_anomalies (anomaly : list bool) : outcome Q :=
  let num_anomalies := sum anomaly in
  let num_points := Z.of_nat (length anomaly) in
  truediv num_anomalies num_points.

Definition adj_p_at_n (anomaly : list bool) (y_scores : list Q)
  : outcome (list npfloat) :=
  frac <- frac_anomalies anomaly ;;
  p_at_n <- precision_at_n anomaly y_scores 0 ;;
  Returns (map (fun p => np_truediv (p - frac) (1 - frac)) p_at_n).

(** ** Cost of misclassification

    The notebook calls [misclass_cost] with error counts taken from a
    confusion matrix, which are NumPy [int64] scalars, and with Python
    integers as unit costs: the two products and their sum are [int64]
    values and wrap around.  The function prints a message and returns
    [None] when a cost is not positive; the value is paired with the lines
    printed. *)

(** The [int64] value of an integer: its residue in [-2^63, 2^63). *)
Definition wrap64 (z : Z) : Z := (z + 2 ^ 63) mod 2 ^ 64 - 2 ^ 63.

Definition misclass_cost (false_pos false_neg false_pos_cost false_neg_cost : Z)
  : list string * option Z :=
  if (false_pos_cost <=? 0) || (false_neg_cost <=? 0)
  then (["Costs must be greater than zero"%string], None)
  else ([], Some (wrap64 (wrap64 (false_pos * false_pos_cost)
                          + wrap64 (false_neg * false_neg_cost)))).

(** ** Labelling the top-ranked points

    The cell that turns the ranking of the subspace method into predicted
    labels:
    [label_pred = [0]*len(all_data)], then for [index, item] in
    [enumerate(ranking_by_index)] it sets [label_pred[item] = 1] and leaves
    the loop when [index == anom_pts]. *)

(** [l[i] = v] on a Python list: negative indices count from the end, and an
    index outside the list raises. *)
Definition list_setitem {A : Type} (l : list A) (i : Z) (v : A)
  : outcome (list A) :=
  let len := Z.of_nat (length l) in
  if (0 <=? i) && (i <? len) then
    Returns (firstn (Z.to_nat i) l ++ v :: skipn (S (Z.to_nat i)) l)
  else if (- len <=? i) && (i <? 0) then
    Returns (firstn (Z.to_nat (len + i)) l
             ++ v :: skipn (S (Z.to_nat (len + i))) l)
  else Raises IndexError.

Fixpoint label_loop (label_pred : list Z) (index : Z)
    (ranking_by_index : list Z) (anom_pts : Z) : outcome (list Z) :=
  match ranking_by_index with
  | [] => Returns label_pred
  | item :: rest =>
      label_pred' <- list_setitem label_pred item 1 ;;
      if index =? anom_pts then Returns label_pred'
      else label_loop label_pred' (index + 1) rest anom_pts
  end.

Definition label_top_ranked (n_data : nat) (ranking_by_index : list Z)
    (anom_pts : Z) : outcome (list Z) :=
  let label_pred := repeat 0 n_data in
  label_loop label_pred 0 ranking_by_index anom_pts.

(** * Properties *)

(** ** Comparisons *)

Lemma Qltb_lt (x y : Q) : Qltb x y = true <-> (x < y)%Q.
Proof.
  unfold Qltb. rewrite negb_true_iff, <- not_true_iff_false, Qle_bool_iff.
  split; [apply Qnot_le_lt | apply Qlt_not_le].
Qed.

Lemma Qltb_ge (x y : Q) : Qltb x y = false <-> (y <= x)%Q.
Proof.
  unfold Qltb. rewrite negb_false_iff. apply Qle_bool_iff.
Qed.

Lemma py_max_Qmax (x : Q) : py_max 0 x = Qmax 0 x.
Proof.
  unfold py_max, Qmax, GenericMinMax.gmax.
  destruct (Qcompare_spec 0 x) as [E | L | G].
  - replace (Qltb 0 x) with false; [reflexivity |].
    symmetry. apply Qltb_ge. rewrite E. apply Qle_refl.
  - replace (Qltb 0 x) with true; [reflexivity |].
    symmetry. now apply Qltb_lt.
  - replace (Qltb 0 x) with false; [reflexivity |].
    symmetry. apply Qltb_ge. now apply Qlt_le_weak.
Qed.

Lemma py_min_Qmin (x : Q) : py_min 0 x = Qmin 0 x.
Proof.
  unfold py_min, Qmin, GenericMinMax.gmin.
  destruct (Qcompare_spec 0 x) as [E | L | G].
  - replace (Qltb x 0) with false; [reflexivity |].
    symmetry. apply Qltb_ge. rewrite E. apply Qle_refl.
  - replace (Qltb x 0) with false; [reflexivity |].
    symmetry. apply Qltb_ge. now apply Qlt_le_weak.
  - replace (Qltb x 0) with true; [reflexivity |].
    symmetry. now apply Qltb_lt.
Qed.

(** ** The CUSUM loop *)

Section CusumFacts.

Context {I : Type}.
Variables mean shift threshold : Q.

(** A pair of running sums is beyond the threshold. *)
Let beyond (hl : Q * Q) : bool :=
  Qltb threshold (fst hl) || Qltb (snd hl) (- threshold)%Q.

Lemma running_sums_cons (hs ls v : Q) (vs : list Q) :
  running_sums mean shift hs ls (v :: vs)
  = (py_max 0 (hs + v - mean - shift)%Q, py_min 0 (ls + v - mean + shift)%Q)
      :: running_sums mean shift
           (py_max 0 (hs + v - mean - shift)%Q)
           (py_min 0 (ls + v - mean + shift)%Q) vs.
Proof.
  rewrite py_max_Qmax, py_min_Qmin. reflexivity.
Qed.

(** What the loop appends to its three lists, from any state. *)
Lemma loop_appends (data : frame I) (st : locals I) :
  let st' := fold_left (loop_body mean shift threshold) data st in
  let rs := running_sums mean shift (high_sum st) (low_sum st)
              (map snd data) in
  high_sum_final st' = high_sum_final st ++ map fst rs /\
  low_sum_final st' = low_sum_final st ++ map snd rs /\
  anomalies st' =
    anomalies st
    ++ map fst (filter (fun pr => beyond (snd pr)) (combine data rs)).
Proof.
  revert st. induction data as [| row data IH]; intros st; cbn zeta.
  - cbn. now rewrite !app_nil_r.
  - destruct row as [ix v].
    cbn [fold_left map]. rewrite running_sums_cons.
    specialize (IH (loop_body mean shift threshold st (ix, v))).
    cbn zeta in IH. destruct IH as (IHh & IHl & IHa).
    rewrite IHh, IHl, IHa. clear IHh IHl IHa.
    cbn [loop_body high_sum low_sum anomalies high_sum_final low_sum_final].
    set (h := py_max 0 _). set (l := py_min 0 _).
    cbn [combine filter map fst snd]. unfold beyond at 2. cbn [fst snd].
    rewrite <- !app_assoc.
    destruct (Qltb threshold h || Qltb l (- threshold)%Q);
      cbn [map fst app]; repeat split; now rewrite <- ?app_assoc.
Qed.

Lemma running_sums_length (hs ls : Q) (values : list Q) :
  length (running_sums mean shift hs ls values) = length values.
Proof.
  revert hs ls. induction values as [| v vs IH]; intros; cbn; auto.
Qed.

Lemma combine_fst_snd {A B : Type} (l : list (A * B)) :
  combine (map fst l) (map snd l) = l.
Proof.
  induction l as [| [a b] l IH]; cbn; congruence.
Qed.

Lemma running_sums_firstn (i : nat) (hs ls : Q) (values : list Q) :
  firstn i (running_sums mean shift hs ls values)
  = running_sums mean shift hs ls (firstn i values).
Proof.
  revert i hs ls. induction values as [| v vs IH]; intros [| i] hs ls;
    cbn; try reflexivity.
  now rewrite IH.
Qed.

Lemma rows_of_firstn (i : nat) (data : frame I) :
  firstn i (rows_of mean shift data) = rows_of mean shift (firstn i data).
Proof.
  unfold rows_of.
  rewrite <- firstn_map, <- running_sums_firstn, <- combine_firstn.
  now rewrite firstn_map.
Qed.

Lemma rows_of_points (data : frame I) : map point (rows_of mean shift data) = data.
Proof.
  unfold rows_of. rewrite map_map. unfold point. cbn.
  assert (H : length (running_sums mean shift 0 0 (map snd data))
              = length data)
    by now rewrite running_sums_length, length_map.
  revert H. generalize (running_sums mean shift 0 0 (map snd data)).
  induction data as [| [ix v] data IH]; intros [| r rs] H;
    cbn in *; try congruence.
  f_equal. apply IH. lia.
Qed.

Lemma rows_of_sums (data : frame I) :
  map (fun r => (High_Cusum r, Low_Cusum r)) (rows_of mean shift data)
  = running_sums mean shift 0 0 (map snd data).
Proof.
  unfold rows_of. rewrite map_map. cbn.
  assert (H : length (running_sums mean shift 0 0 (map snd data))
              = length data)
    by now rewrite running_sums_length, length_map.
  revert H. generalize (running_sums mean shift 0 0 (map snd data)).
  induction data as [| [ix v] data IH]; intros [| [h l] rs] H;
    cbn in *; try congruence.
  f_equal. apply IH. lia.
Qed.

Lemma rows_of_flagged (data : frame I) :
  map point (filter (flagged threshold) (rows_of mean shift data))
  = map fst (filter (fun pr => beyond (snd pr))
               (combine data (running_sums mean shift 0 0 (map snd data)))).
Proof.
  unfold rows_of.
  generalize (running_sums mean shift 0 0 (map snd data)).
  induction data as [| [ix v] data IH]; intros [| [h l] rs];
    cbn [combine map filter]; try reflexivity.
  unfold flagged at 1, beyond at 1. cbn [High_Cusum Low_Cusum fst snd].
  destruct (Qltb threshold h || Qltb l (- threshold)%Q); cbn [map];
    rewrite IH; reflexivity.
Qed.

(** [cusum] returns, and what it returns. *)
Lemma cusum_returns (data : frame I) :
  cusum data mean shift threshold
  = Returns (rows_of mean shift data,
             map point (filter (flagged threshold) (rows_of mean shift data))).
Proof.
  unfold cusum.
  destruct (loop_appends data locals_init) as (Hh & Hl & Ha).
  cbn [locals_init high_sum low_sum anomalies high_sum_final low_sum_final
       app] in Hh, Hl, Ha.
  rewrite Hh, Hl, Ha. unfold assign.
  rewrite !length_map, running_sums_length, length_map, Nat.eqb_refl.
  cbn [andb bind]. rewrite combine_fst_snd, rows_of_flagged.
  reflexivity.
Qed.

End CusumFacts.

(** ** Facts about the primitives *)

Lemma sum_count_true (l : list bool) : sum l = Z.of_nat (count_true l).
Proof.
  unfold sum, count_true.
  assert (G : forall acc,
             fold_left (fun acc b => acc + Z.b2z b) l acc
             = acc + Z.of_nat (length (filter (fun b => b) l))).
  { induction l as [| b l IH]; intros acc; cbn [fold_left filter length].
    - lia.
    - rewrite IH. destruct b; cbn [Z.b2z length]; lia. }
  now rewrite G.
Qed.

Lemma range_from_1 (n : Z) :
  range 1 (n + 1) = map Z.of_nat (seq 1 (Z.to_nat n)).
Proof.
  unfold range. replace (n + 1 - 1) with n by lia.
  rewrite <- seq_shift, map_map. apply map_ext. intros i. lia.
Qed.

Lemma slice_to_pos {A : Type} (l : list A) (n : nat) :
  slice_to l (Z.of_nat n) = firstn n l.
Proof.
  unfold slice_to. destruct (Z.ltb_spec (Z.of_nat n) 0); [lia |].
  now rewrite Nat2Z.id.
Qed.

Lemma comprehension_returns {A B : Type} (f : A -> outcome B) (g : A -> B)
    (l : list A) :
  (forall a, In a l -> f a = Returns (g a)) ->
  comprehension f l = Returns (map g l).
Proof.
  induction l as [| a l IH]; intros H; cbn [comprehension map].
  - reflexivity.
  - rewrite (H a (or_introl eq_refl)), IH; [reflexivity |].
    intros a' Ha'. apply H. now right.
Qed.

Lemma count_true_le_length (l : list bool) : (count_true l <= length l)%nat.
Proof. apply filter_length_le. Qed.

Lemma count_true_app (l l' : list bool) :
  count_true (l ++ l') = (count_true l + count_true l')%nat.
Proof. unfold count_true. now rewrite filter_app, length_app. Qed.

(** ** [precision_at_n] returns, and what it returns *)

Lemma precision_at_n_returns (labels : list bool) (scores : list Q)
    (n_max : Z) :
  precision_at_n labels scores n_max
  = Returns (map (p_at (map snd (sorted (zip scores labels))))
                 (seq 1 (Z.to_nat (effective_n_max scores n_max)))).
Proof.
  unfold precision_at_n. fold (effective_n_max scores n_max).
  rewrite range_from_1.
  set (ranked := map snd (sorted (zip scores labels))).
  rewrite (comprehension_returns _ (fun n => p_at ranked (Z.to_nat n))).
  - rewrite map_map. f_equal. apply map_ext. intros n.
    now rewrite Nat2Z.id.
  - intros n Hn. apply in_map_iff in Hn as (k & <- & Hk).
    apply in_seq in Hk. unfold truediv.
    destruct (Z.eqb_spec (Z.of_nat k) 0); [lia |].
    rewrite slice_to_pos, sum_count_true, Nat2Z.id. reflexivity.
Qed.

Lemma p_at_bounds (ranked : list bool) (n : nat) :
  (1 <= n)%nat -> (0 <= p_at ranked n <= 1)%Q.
Proof.
  intros Hn. unfold p_at.
  assert (Hc : (count_true (firstn n ranked) <= n)%nat).
  { etransitivity; [apply count_true_le_length |].
    rewrite length_firstn. lia. }
  assert (Hpos : (0 < inject_Z (Z.of_nat n))%Q).
  { change 0%Q with (inject_Z 0). rewrite <- Zlt_Qlt. lia. }
  split.
  - apply Qle_shift_div_l; [exact Hpos |].
    rewrite Qmult_0_l. change 0%Q with (inject_Z 0).
    rewrite <- Zle_Qle. lia.
  - apply Qle_shift_div_r; [exact Hpos |].
    rewrite Qmult_1_l, <- Zle_Qle. lia.
Qed.

(** ** The sort *)

Lemma tuple_lt_false (p q : Q * bool) :
  tuple_lt q p = false <-> tuple_le p q.
Proof.
  unfold tuple_lt, tuple_le.
  destruct (Qeq_bool (fst q) (fst p)) eqn:E.
  - apply Qeq_bool_iff in E.
    destruct (snd p), (snd q); cbn; split; intros H; try discriminate;
      try reflexivity.
    + right. split; [now symmetry | reflexivity].
    + destruct H as [H | [_ H]]; [| discriminate].
      rewrite E in H. now apply Qlt_irrefl in H.
    + right. split; [now symmetry | exact I].
    + right. split; [now symmetry | exact I].
  - apply Qeq_bool_neq in E. rewrite Qltb_ge. split.
    + intros H. left. apply Qle_lt_or_eq in H as [H | H]; [exact H |].
      exfalso. apply E. now symmetry.
    + intros [H | [H _]]; [now apply Qlt_le_weak |].
      rewrite H. apply Qle_refl.
Qed.

Lemma tuple_lt_true (p q : Q * bool) :
  tuple_lt p q = true -> tuple_le p q.
Proof.
  unfold tuple_lt, tuple_le.
  destruct (Qeq_bool (fst p) (fst q)) eqn:E.
  - apply Qeq_bool_iff in E. intros H. apply andb_true_iff in H as [Hp Hq].
    right. split; [exact E |]. apply negb_true_iff in Hp. now rewrite Hp.
  - rewrite Qltb_lt. now left.
Qed.

Lemma tuple_le_trans (p q r : Q * bool) :
  tuple_le p q -> tuple_le q r -> tuple_le p r.
Proof.
  unfold tuple_le. intros [H1 | [E1 B1]] [H2 | [E2 B2]].
  - left. now apply Qlt_trans with (fst q).
  - left. now rewrite <- E2.
  - left. now rewrite E1.
  - right. split; [now rewrite E1 |].
    destruct (snd p), (snd q), (snd r); cbn in *; congruence.
Qed.

Lemma tuple_le_score_le (p q : Q * bool) : tuple_le p q -> score_le p q.
Proof.
  unfold tuple_le, score_le. intros [H | [H _]].
  - now apply Qlt_le_weak.
  - rewrite H. apply Qle_refl.
Qed.

Lemma insert_perm (x : Q * bool) (l : list (Q * bool)) :
  Permutation (insert x l) (x :: l).
Proof.
  induction l as [| y l IH]; cbn [insert]; [reflexivity |].
  destruct (tuple_lt y x); [| reflexivity].
  rewrite IH. apply perm_swap.
Qed.

Lemma sorted_perm (l : list (Q * bool)) : Permutation (sorted l) l.
Proof.
  induction l as [| x l IH]; cbn [sorted fold_right]; [reflexivity |].
  fold (sorted l). rewrite insert_perm. now constructor.
Qed.

Lemma insert_sorted (x : Q * bool) (l : list (Q * bool)) :
  StronglySorted tuple_le l -> StronglySorted tuple_le (insert x l).
Proof.
  induction l as [| y l IH]; intros Hs; cbn [insert].
  - repeat constructor.
  - apply StronglySorted_inv in Hs as [Hs Hy].
    destruct (tuple_lt y x) eqn:E.
    + constructor; [now apply IH |].
      rewrite (insert_perm x l). constructor; [now apply tuple_lt_true |].
      exact Hy.
    + apply tuple_lt_false in E. constructor.
      * now constructor.
      * constructor; [exact E |].
        eapply Forall_impl; [| exact Hy].
        intros z Hz. now apply tuple_le_trans with y.
Qed.

Lemma sorted_sorted (l : list (Q * bool)) : StronglySorted tuple_le (sorted l).
Proof.
  induction l as [| x l IH]; cbn [sorted fold_right]; [constructor |].
  now apply insert_sorted.
Qed.

Lemma sorted_by_score (l : list (Q * bool)) :
  StronglySorted score_le (sorted l).
Proof.
  induction (sorted_sorted l) as [| x l' Hs IH Hx]; constructor.
  - exact IH.
  - eapply Forall_impl; [| exact Hx]. exact (tuple_le_score_le x).
Qed.

Lemma sorted_length (l : list (Q * bool)) : length (sorted l) = length l.
Proof. apply Permutation_length, sorted_perm. Qed.

(** In a sorted list every entry of a prefix is below every later entry. *)
Lemma StronglySorted_firstn_skipn {A : Type} (R : A -> A -> Prop)
    (l : list A) (n : nat) :
  StronglySorted R l ->
  forall p q, In p (firstn n l) -> In q (skipn n l) -> R p q.
Proof.
  intros Hs. revert n. induction Hs as [| x l Hs IH Hx]; intros n p q Hp Hq.
  - now rewrite firstn_nil in Hp.
  - destruct n as [| n]; [destruct Hp |].
    cbn [firstn skipn] in Hp, Hq. destruct Hp as [<- | Hp].
    + rewrite Forall_forall in Hx. apply Hx.
      rewrite <- (firstn_skipn n l). apply in_or_app. now right.
    + now apply (IH n).
Qed.

(** ** Claims about the CUSUM detector *)

(** C5.  [cusum] walks the series in order from [high_sum = 0] and
    [low_sum = 0] with the updates [max(0, high_sum + value - mean - shift)]
    and [min(0, low_sum + value - mean + shift)]; the returned frame has one
    row per input point, carrying the running pair at that point, and the
    anomaly list is made, in order, of exactly the points whose pair, right
    after the update, has [high_sum > threshold] or
    [low_sum < -threshold]. *)
Theorem cusum_running_sums {I : Type} :
  forall (data : frame I) (mean shift threshold : Q),
  exists rows anoms,
    cusum data mean shift threshold = Returns (rows, anoms) /\
    map point rows = data /\
    map (fun r : cusum_row I => (High_Cusum r, Low_Cusum r)) rows
      = running_sums mean shift 0 0 (map snd data) /\
    anoms = map point (filter (flagged threshold) rows) /\
    (forall r : cusum_row I, flagged threshold r = true <->
               (threshold < High_Cusum r \/ Low_Cusum r < - threshold)%Q).
Proof.
  intros data mean shift threshold.
  exists (rows_of mean shift data),
         (map point (filter (flagged threshold) (rows_of mean shift data))).
  split; [apply cusum_returns |].
  split; [apply rows_of_points |].
  split; [apply rows_of_sums |].
  split; [reflexivity |].
  intros r. unfold flagged. now rewrite orb_true_iff, !Qltb_lt.
Qed.

(** C6, as the code has it.  [cusum] checks neither [shift] nor
    [threshold]: it returns for every argument, negative ones included, and
    when no running sum of the series is beyond the threshold the anomaly
    list it returns is empty. *)
Theorem cusum_never_raises {I : Type} :
  forall (data : frame I) (mean shift threshold : Q),
  exists rows anoms,
    cusum data mean shift threshold = Returns (rows, anoms) /\
    ((forall r, In r rows ->
        ~ (threshold < High_Cusum r)%Q /\ ~ (Low_Cusum r < - threshold)%Q) ->
     anoms = []).
Proof.
  intros data mean shift threshold.
  exists (rows_of mean shift data),
         (map point (filter (flagged threshold) (rows_of mean shift data))).
  split; [apply cusum_returns |].
  intros Hquiet.
  induction (rows_of mean shift data) as [| r rows IH]; [reflexivity |].
  cbn [filter].
  destruct (flagged threshold r) eqn:Hf.
  - exfalso. destruct (Hquiet r (or_introl eq_refl)) as [Hh Hl].
    unfold flagged in Hf. apply orb_true_iff in Hf.
    destruct Hf as [Hf | Hf]; apply Qltb_lt in Hf; tauto.
  - apply IH. intros r' Hr'. apply Hquiet. now right.
Qed.

Lemma cusum_never_raises_witness :
  exists rows anoms,
    cusum [(1, 0%Q); (2, 1%Q)] 0 1 5 = Returns (rows, anoms) /\ anoms = [].
Proof.
  destruct (cusum_never_raises (I := Z) [(1, 0%Q); (2, 1%Q)] 0%Q 1%Q 5%Q)
    as (rows & anoms & Hc & Hquiet).
  exists rows, anoms. split; [exact Hc |].
  apply Hquiet. intros r Hr.
  vm_compute in Hc. injection Hc as Hrows _. subst rows.
  destruct Hr as [<- | [<- | []]]; split; intros H; discriminate H.
Defined.

(** C6, as the specification states it, fails: with [shift = -1] and
    [threshold = -1] the call returns a frame and an anomaly list. *)
Lemma cusum_negative_arguments_return :
  ((-1 < 0)%Q /\
   cusum [(1, 0%Q); (2, 5%Q)] 0 (-1) (-1)
   = Returns ([mk_row 1 0 1 (-1); mk_row 2 5 7 0], [(1, 0%Q); (2, 5%Q)])) /\
  ~ (forall (data : frame Z) (mean shift threshold : Q),
       (shift < 0 \/ threshold < 0)%Q <->
       exists e, cusum data mean shift threshold = Raises e).
Proof.
  split; [split; [reflexivity | vm_compute; reflexivity] |].
  intros H.
  destruct (proj1 (H [(1, 0%Q); (2, 5%Q)] 0%Q (-1)%Q (-1)%Q)) as [e He].
  - left. reflexivity.
  - vm_compute in He. discriminate He.
Qed.

(** C9.  [cusum] is determined by prefixes: when two series agree on their
    first [i] points, the first [i] rows of the two returned frames (points
    and running sums) are the same, and each anomaly list is the list of
    flagged points among these [i] rows, which is the same list in both
    runs, followed by the flagged points among the later rows. *)
Theorem cusum_prefix_determined {I : Type} :
  forall (d1 d2 : frame I) (i : nat) (mean shift threshold : Q),
    firstn i d1 = firstn i d2 ->
    exists rows1 anoms1 rows2 anoms2,
      cusum d1 mean shift threshold = Returns (rows1, anoms1) /\
      cusum d2 mean shift threshold = Returns (rows2, anoms2) /\
      firstn i rows1 = firstn i rows2 /\
      map (flagged threshold) (firstn i rows1)
        = map (flagged threshold) (firstn i rows2) /\
      anoms1 = map point (filter (flagged threshold) (firstn i rows1))
               ++ map point (filter (flagged threshold) (skipn i rows1)) /\
      anoms2 = map point (filter (flagged threshold) (firstn i rows2))
               ++ map point (filter (flagged threshold) (skipn i rows2)).
Proof.
  intros d1 d2 i mean shift threshold Hpre.
  exists (rows_of mean shift d1),
         (map point (filter (flagged threshold) (rows_of mean shift d1))),
         (rows_of mean shift d2),
         (map point (filter (flagged threshold) (rows_of mean shift d2))).
  split; [apply cusum_returns |].
  split; [apply cusum_returns |].
  assert (Hrows : firstn i (rows_of mean shift d1)
                  = firstn i (rows_of mean shift d2))
    by now rewrite !rows_of_firstn, Hpre.
  split; [exact Hrows |].
  split; [now rewrite Hrows |].
  split; rewrite <- map_app, <- filter_app, firstn_skipn; reflexivity.
Qed.

Lemma cusum_prefix_determined_witness :
  exists rows1 anoms1 rows2 anoms2,
    cusum [(1, 0%Q); (2, 3%Q); (3, 0%Q)] 0 1 1 = Returns (rows1, anoms1) /\
    cusum [(1, 0%Q); (2, 3%Q); (3, 9%Q); (4, 9%Q)] 0 1 1
      = Returns (rows2, anoms2) /\
    firstn 2 rows1 = firstn 2 rows2 /\
    map (flagged 1) (firstn 2 rows1) = map (flagged 1) (firstn 2 rows2) /\
    anoms1 = map point (filter (flagged 1) (firstn 2 rows1))
             ++ map point (filter (flagged 1) (skipn 2 rows1)) /\
    anoms2 = map point (filter (flagged 1) (firstn 2 rows2))
             ++ map point (filter (flagged 1) (skipn 2 rows2)).
Proof.
  apply (cusum_prefix_determined (I := Z)
           [(1, 0%Q); (2, 3%Q); (3, 0%Q)]
           [(1, 0%Q); (2, 3%Q); (3, 9%Q); (4, 9%Q)] 2 0%Q 1%Q 1%Q).
  reflexivity.
Defined.

(** ** Claims about [precision_at_n] *)

Lemma nth_error_p_at (ranked : list bool) (len n : nat) :
  (1 <= n <= len)%nat ->
  nth_error (map (p_at ranked) (seq 1 len)) (n - 1) = Some (p_at ranked n).
Proof.
  intros Hn. rewrite nth_error_map, nth_error_seq.
  destruct (Nat.ltb_spec (n - 1) len); [| lia].
  cbn [option_map]. do 2 f_equal. lia.
Qed.

(** C3.  For labels and scores of equal length, [precision_at_n] ranks the
    [(score, label)] pairs in ascending order of score (the ranking is a
    permutation of the pairs, and every entry among the first [n] has a score
    at most that of every later entry), and for every [n] from 1 to [n_max]
    (the number of scores when [n_max] is 0) the [n]-th element of the
    result is the number of true labels among the first [n] ranked entries,
    divided by [n].  On the lecture example the result is
    [1, 1/2, 2/3, 1/2]. *)
Theorem precision_at_n_counts_lowest_scores :
  (forall (labels : list bool) (scores : list Q) (n_max : Z),
     length labels = length scores ->
     exists ranked r,
       Permutation ranked (zip scores labels) /\
       StronglySorted score_le ranked /\
       precision_at_n labels scores n_max = Returns r /\
       forall n : nat,
         (1 <= n)%nat -> Z.of_nat n <= effective_n_max scores n_max ->
         nth_error r (n - 1)
           = Some (inject_Z (Z.of_nat (count_true (map snd (firstn n ranked))))
                   / inject_Z (Z.of_nat n))%Q /\
         (forall p q,
            In p (firstn n ranked) -> In q (skipn n ranked) ->
            (fst p <= fst q)%Q)) /\
  (exists r,
     precision_at_n lecture_labels lecture_scores 0 = Returns r /\
     Forall2 Qeq r [1; 1 # 2; 2 # 3; 1 # 2]%Q).
Proof.
  split.
  - intros labels scores n_max _.
    exists (sorted (zip scores labels)),
           (map (p_at (map snd (sorted (zip scores labels))))
                (seq 1 (Z.to_nat (effective_n_max scores n_max)))).
    split; [apply sorted_perm |].
    split.
    { apply sorted_by_score. }
    split; [apply precision_at_n_returns |].
    intros n Hn Hmax. split.
    + rewrite nth_error_p_at by lia. unfold p_at. now rewrite firstn_map.
    + intros p q Hp Hq.
      exact (StronglySorted_firstn_skipn score_le _ n
               (sorted_by_score (zip scores labels)) p q Hp Hq).
  - eexists. split; [vm_compute; reflexivity |].
    repeat constructor.
Qed.

Lemma precision_at_n_counts_lowest_scores_witness :
  exists ranked r,
    Permutation ranked (zip lecture_scores lecture_labels) /\
    StronglySorted score_le ranked /\
    precision_at_n lecture_labels lecture_scores 0 = Returns r /\
    forall n : nat,
      (1 <= n)%nat -> Z.of_nat n <= effective_n_max lecture_scores 0 ->
      nth_error r (n - 1)
        = Some (inject_Z (Z.of_nat (count_true (map snd (firstn n ranked))))
                / inject_Z (Z.of_nat n))%Q /\
      (forall p q,
         In p (firstn n ranked) -> In q (skipn n ranked) ->
         (fst p <= fst q)%Q).
Proof.
  apply (proj1 precision_at_n_counts_lowest_scores
           lecture_labels lecture_scores 0).
  reflexivity.
Defined.

(** C4, as the code has it.  For labels and scores of equal length
    [precision_at_n] returns for every [n_max]; the list returned has
    exactly [n_max] elements when [n_max] is positive, as many as there are
    scores when [n_max] is 0, and none when [n_max] is negative; every
    element lies between 0 and 1. *)
Theorem precision_at_n_length_and_range :
  forall (labels : list bool) (scores : list Q) (n_max : Z),
    length labels = length scores ->
    exists r,
      precision_at_n labels scores n_max = Returns r /\
      Z.of_nat (length r)
        = (if n_max =? 0 then Z.of_nat (length scores)
           else Z.max 0 n_max) /\
      Forall (fun x => 0 <= x <= 1)%Q r.
Proof.
  intros labels scores n_max _.
  eexists. split; [apply precision_at_n_returns |].
  split.
  - rewrite length_map, length_seq. unfold effective_n_max.
    destruct (n_max =? 0); lia.
  - apply Forall_forall. intros x Hx.
    apply in_map_iff in Hx as (n & <- & Hn). apply in_seq in Hn.
    apply p_at_bounds. lia.
Qed.

Lemma precision_at_n_length_and_range_witness :
  exists r,
    precision_at_n lecture_labels lecture_scores (-2) = Returns r /\
    Z.of_nat (length r) = 0 /\
    Forall (fun x => 0 <= x <= 1)%Q r.
Proof.
  apply (precision_at_n_length_and_range lecture_labels lecture_scores (-2)).
  reflexivity.
Defined.

(** C4, as the specification states it, fails for a negative [n_max]: the
    call succeeds and returns the empty list, whose length is not
    [n_max]. *)
Lemma precision_at_n_negative_cap :
  (length [true; false] = length [1; 2]%Q /\
   precision_at_n [true; false] [1; 2]%Q (-1) = Returns [] /\
   Z.of_nat (length (@nil Q)) <> -1) /\
  ~ (forall (labels : list bool) (scores : list Q) (n_max : Z) (r : list Q),
       length labels = length scores ->
       precision_at_n labels scores n_max = Returns r ->
       Z.of_nat (length r)
       = (if n_max =? 0 then Z.of_nat (length scores) else n_max)).
Proof.
  split.
  - split; [reflexivity |]. split; [vm_compute; reflexivity | discriminate].
  - intros H.
    specialize (H [true; false] [1; 2]%Q (-1) [] eq_refl).
    assert (E : precision_at_n [true; false] [1; 2]%Q (-1) = Returns [])
      by (vm_compute; reflexivity).
    specialize (H E). discriminate H.
Qed.

(** The pairs that [zip] makes: positions below the shorter length. *)
Lemma zip_positions (labels : list bool) (scores : list Q) :
  zip scores labels
  = map (fun i => (nth i scores 0%Q, nth i labels false))
        (seq 0 (Nat.min (length labels) (length scores))).
Proof.
  unfold zip. revert labels.
  induction scores as [| x scores IH]; intros [| b labels];
    cbn [combine length Nat.min seq map]; try reflexivity.
  rewrite <- seq_shift, map_map. cbn [nth]. f_equal. apply IH.
Qed.

(** C2, as the code has it.  [precision_at_n] checks none of its arguments
    and returns on every input.  It ranks the pairs
    [(scores[i], labels[i])] for the positions [i] below the shorter of the
    two lengths, so what is beyond the shorter sequence is dropped.  The
    result has [n_max] elements (as many as there are scores when [n_max]
    is 0) whenever that number is positive, even beyond the number of
    pairs, and no element when [n_max] is negative; its [n]-th element is
    the number of true labels among the first [n] ranked pairs (all of them
    when there are fewer) divided by [n]. *)
Theorem precision_at_n_never_raises :
  forall (labels : list bool) (scores : list Q) (n_max : Z),
  exists ranked r,
    Permutation ranked
      (map (fun i => (nth i scores 0%Q, nth i labels false))
           (seq 0 (Nat.min (length labels) (length scores)))) /\
    StronglySorted score_le ranked /\
    precision_at_n labels scores n_max = Returns r /\
    Z.of_nat (length r)
      = Z.max 0 (if n_max =? 0 then Z.of_nat (length scores) else n_max) /\
    forall n : nat,
      (1 <= n)%nat ->
      Z.of_nat n <= (if n_max =? 0 then Z.of_nat (length scores) else n_max) ->
      nth_error r (n - 1)
      = Some (inject_Z (Z.of_nat (count_true (map snd (firstn n ranked))))
              / inject_Z (Z.of_nat n))%Q.
Proof.
  intros labels scores n_max.
  exists (sorted (zip scores labels)),
         (map (p_at (map snd (sorted (zip scores labels))))
              (seq 1 (Z.to_nat (effective_n_max scores n_max)))).
  split; [rewrite <- zip_positions; apply sorted_perm |].
  split; [apply sorted_by_score |].
  split; [apply precision_at_n_returns |].
  fold (effective_n_max scores n_max).
  split; [rewrite length_map, length_seq; lia |].
  intros n Hn Hmax.
  rewrite nth_error_p_at by lia. unfold p_at. now rewrite firstn_map.
Qed.

Lemma precision_at_n_never_raises_witness :
  exists ranked r,
    Permutation ranked
      (map (fun i => (nth i [1; 2]%Q 0%Q, nth i [true] false))
           (seq 0 (Nat.min (length [true]) (length [1; 2]%Q)))) /\
    StronglySorted score_le ranked /\
    precision_at_n [true] [1; 2]%Q 0 = Returns r /\
    Z.of_nat (length r) = 2 /\
    nth_error r (2 - 1)
    = Some (inject_Z (Z.of_nat (count_true (map snd (firstn 2 ranked))))
            / inject_Z (Z.of_nat 2))%Q.
Proof.
  destruct (precision_at_n_never_raises [true] [1; 2]%Q 0)
    as (ranked & r & Hperm & Hsorted & Hr & Hlen & Hnth).
  exists ranked, r.
  split; [exact Hperm |]. split; [exact Hsorted |].
  split; [exact Hr |]. split; [exact Hlen |].
  apply (Hnth 2%nat); cbn; lia.
Defined.

(** C2, as the specification states it, fails in each of its three cases:
    labels shorter than scores, [n_max] beyond the length, and a negative
    [n_max] all return a list. *)
Lemma precision_at_n_accepts_bad_arguments :
  (length [true] <> length [1; 2]%Q /\
   precision_at_n [true] [1; 2]%Q 0 = Returns [1; 1 # 2]%Q) /\
  (5 > Z.of_nat (length [1; 2]%Q) /\
   precision_at_n [true; false] [1; 2]%Q 5
   = Returns [1; 1 # 2; 1 # 3; 1 # 4; 1 # 5]%Q) /\
  (-1 < 0 /\
   precision_at_n [true; false] [1; 2]%Q (-1) = Returns []).
Proof.
  repeat split; try (vm_compute; reflexivity); try discriminate.
Qed.

(** ** Claims about the average precision *)

Lemma np_sum_from (l : list Q) (acc : Q) :
  Forall (fun x => x == 0)%Q l -> (fold_left Qplus l acc == acc)%Q.
Proof.
  intros H. revert acc. induction H as [| x l Hx _ IH]; intros acc; cbn.
  - reflexivity.
  - rewrite IH, Hx. ring.
Qed.

Lemma np_sum_zero (l : list Q) :
  Forall (fun x => x == 0)%Q l -> (np_sum l == 0)%Q.
Proof. apply np_sum_from. Qed.

Lemma zip_labels (labels : list bool) (scores : list Q) :
  length labels = length scores -> map snd (zip scores labels) = labels.
Proof.
  revert scores. induction labels as [| b labels IH]; intros [| x scores] H;
    cbn in *; try congruence.
  f_equal. apply IH. lia.
Qed.

Lemma zip_length (labels : list bool) (scores : list Q) :
  length labels = length scores ->
  length (zip scores labels) = length scores.
Proof. intros H. unfold zip. rewrite length_combine. lia. Qed.

(** The ranked labels are a rearrangement of the labels. *)
Lemma ranked_labels_perm (labels : list bool) (scores : list Q) :
  length labels = length scores ->
  Permutation (map snd (sorted (zip scores labels))) labels.
Proof.
  intros H. rewrite <- (zip_labels labels scores H) at 2.
  apply Permutation_map, sorted_perm.
Qed.

(** C7, as the code has it.  On labels and scores of equal, non-zero length
    with no true label, [custom_average_precision] raises nothing: NumPy
    divides zero by zero and the call returns [nan]. *)
Theorem custom_average_precision_no_anomaly :
  forall (labels : list bool) (scores : list Q),
    length labels = length scores ->
    labels <> [] ->
    count_true labels = 0%nat ->
    custom_average_precision labels scores = Returns NaN.
Proof.
  intros labels scores Hlen Hne Hnone.
  unfold custom_average_precision.
  pose proof (ranked_labels_perm labels scores Hlen) as Hperm.
  pose proof (sorted_length (zip scores labels)) as Hsl.
  rewrite (zip_length labels scores Hlen) in Hsl.
  destruct (sorted (zip scores labels)) as [| p ranked] eqn:Hs.
  { destruct labels; [congruence | cbn in Hlen, Hsl; lia]. }
  cbn [column1 bind]. set (ia := map snd (p :: ranked)) in *.
  assert (Hfalse : Forall (fun b => b = false) ia).
  { apply Forall_forall. intros b Hb.
    destruct b; [| reflexivity]. exfalso.
    apply (Permutation_in _ Hperm) in Hb.
    unfold count_true in Hnone. apply length_zero_iff_nil in Hnone.
    assert (Hin : In true (filter (fun b => b) labels))
      by (apply filter_In; split; [exact Hb | reflexivity]).
    rewrite Hnone in Hin. destruct Hin. }
  rewrite precision_at_n_returns. cbn [bind].
  unfold effective_n_max. cbn [Z.eqb]. rewrite Nat2Z.id.
  unfold np_mul.
  assert (Hia : length ia = length scores)
    by (unfold ia; now rewrite length_map).
  rewrite !length_map, length_seq, Hia, Nat.eqb_refl. cbn [bind].
  unfold np_truediv.
  assert (Hden : (np_sum (map b2q ia) == 0)%Q).
  { apply np_sum_zero, Forall_map. eapply Forall_impl; [| exact Hfalse].
    intros b ->. reflexivity. }
  apply Qeq_bool_iff in Hden. rewrite Hden.
  match goal with
  | |- context [Qeq_bool (np_sum ?w) 0] =>
      assert (Hnum : (np_sum w == 0)%Q)
  end.
  { apply np_sum_zero, Forall_map, Forall_forall.
    intros [x y] Hxy. apply in_combine_l in Hxy.
    apply in_map_iff in Hxy as (b & <- & Hb).
    rewrite Forall_forall in Hfalse. rewrite (Hfalse b Hb).
    cbn. ring. }
  apply Qeq_bool_iff in Hnum. now rewrite Hnum.
Qed.

Lemma custom_average_precision_no_anomaly_witness :
  custom_average_precision [false; false] [3; 1]%Q = Returns NaN.
Proof.
  apply (custom_average_precision_no_anomaly [false; false] [3; 1]%Q).
  - reflexivity.
  - discriminate.
  - reflexivity.
Defined.

(** C7, as the specification states it, fails: a single false label gives
    [nan], not an exception; the only exception without a true label is the
    [IndexError] of the empty input. *)
Lemma custom_average_precision_returns_nan :
  count_true [false] = 0%nat /\
  custom_average_precision [false] [1]%Q = Returns NaN /\
  custom_average_precision [] [] = Raises IndexError.
Proof.
  repeat split.
Qed.

Lemma np_sum_fold_right (l : list Q) :
  (np_sum l == fold_right Qplus 0 l)%Q.
Proof.
  unfold np_sum.
  assert (G : forall acc,
             (fold_left Qplus l acc == acc + fold_right Qplus 0 l)%Q).
  { induction l as [| x l IH]; intros acc; cbn [fold_left fold_right].
    - ring.
    - rewrite IH. ring. }
  rewrite G. ring.
Qed.

Lemma np_sum_labels (l : list bool) :
  (np_sum (map b2q l) == inject_Z (Z.of_nat (count_true l)))%Q.
Proof.
  rewrite np_sum_fold_right. unfold count_true.
  induction l as [| b l IH]; cbn [map fold_right filter]; [reflexivity |].
  rewrite IH. destruct b; cbn [b2q length]; [| ring].
  rewrite Nat2Z.inj_succ, <- Z.add_1_l, inject_Z_plus. reflexivity.
Qed.

(** Weighting by the labels keeps the terms at the anomaly positions. *)
Lemma weighted_sum_ranks (g : nat -> Q) (l : list bool) (k : nat) :
  (fold_right Qplus 0
     (map (fun p => fst p * snd p)
          (combine (map b2q l) (map g (seq k (length l)))))
   == fold_right Qplus 0
        (map g (filter (fun n => nth (n - k) l false) (seq k (length l)))))%Q.
Proof.
  revert k. induction l as [| b l IH]; intros k;
    cbn [length seq map combine fold_right filter]; [reflexivity |].
  rewrite Nat.sub_diag. cbn [nth fst snd]. rewrite (IH (S k)).
  rewrite (filter_ext_in (fun n => nth (n - k) (b :: l) false)
             (fun n => nth (n - S k) l false)).
  - destruct b; cbn [b2q map fold_right]; ring.
  - intros n Hn. apply in_seq in Hn.
    replace (n - k)%nat with (S (n - S k)) by lia. reflexivity.
Qed.

Lemma sorted_fixed (l : list (Q * bool)) :
  StronglySorted tuple_le l -> sorted l = l.
Proof.
  induction 1 as [| x l Hs IH Hx]; cbn [sorted fold_right]; [reflexivity |].
  fold (sorted l). rewrite IH. destruct l as [| y l']; [reflexivity |].
  cbn [insert]. apply Forall_inv in Hx. apply tuple_lt_false in Hx.
  now rewrite Hx.
Qed.

(** When the pairs already come in ranking order, the value returned is the
    mean of P@n over the anomaly ranks. *)
Lemma custom_average_precision_ranked_input (labels : list bool)
    (scores : list Q) :
  length labels = length scores ->
  (1 <= count_true labels)%nat ->
  sorted (zip scores labels) = zip scores labels ->
  exists q,
    custom_average_precision labels scores = Returns (Finite q) /\
    (q == average_precision_spec labels scores)%Q.
Proof.
  intros Hlen Hsome Hranked.
  unfold custom_average_precision, average_precision_spec.
  rewrite Hranked.
  destruct (zip scores labels) as [| p rest] eqn:Hz.
  { pose proof (zip_length labels scores Hlen) as Hl. rewrite Hz in Hl.
    destruct labels; cbn in *; [lia | congruence]. }
  cbn [column1 bind]. rewrite <- Hz, (zip_labels labels scores Hlen).
  rewrite precision_at_n_returns. cbn [bind].
  rewrite <- Hz in Hranked. rewrite Hranked, (zip_labels labels scores Hlen).
  unfold effective_n_max. cbn [Z.eqb]. rewrite Nat2Z.id, <- Hlen.
  unfold np_mul. rewrite !length_map, length_seq, Nat.eqb_refl. cbn [bind].
  unfold np_truediv.
  assert (Hden : ~ (np_sum (map b2q labels) == 0)%Q).
  { rewrite np_sum_labels. change 0%Q with (inject_Z 0).
    rewrite inject_Z_injective. lia. }
  destruct (Qeq_bool (np_sum (map b2q labels)) 0) eqn:E;
    [apply Qeq_bool_iff in E; contradiction |].
  eexists. split; [reflexivity |].
  rewrite np_sum_fold_right, (weighted_sum_ranks (p_at labels) labels 1).
  rewrite np_sum_labels. reflexivity.
Qed.

(** C1.  On pairs that already come in ranking order, and so on the lecture
    example, [custom_average_precision] returns the mean of P@n over the
    anomaly ranks: (1 + 2/3)/2 on the example.  On other inputs it does not.
    Scores [1, 3, 2] with the one anomaly at score 2: the anomaly is ranked
    second, P@n is [0, 1/2, 1/3], and the mean of P@n over the anomaly ranks
    is 1/2; [custom_average_precision] pairs the ranked labels with the
    scores in their input order, ranks them a second time, and returns 0. *)
Theorem custom_average_precision_unsorted_scores :
  (exists q,
     custom_average_precision [false; false; true] [1; 3; 2]%Q
     = Returns (Finite q) /\ (q == 0)%Q) /\
  (precision_at_n [false; false; true] [1; 3; 2]%Q 0
   = Returns [0 # 1; 1 # 2; 1 # 3]%Q) /\
  (average_precision_spec [false; false; true] [1; 3; 2]%Q == 1 # 2)%Q /\
  (exists q,
     custom_average_precision lecture_labels lecture_scores
     = Returns (Finite q) /\
     (q == (1 + (2 # 3)) / 2)%Q /\
     (average_precision_spec lecture_labels lecture_scores == q)%Q) /\
  (forall (labels : list bool) (scores : list Q),
     length labels = length scores ->
     (1 <= count_true labels)%nat ->
     sorted (zip scores labels) = zip scores labels ->
     exists q,
       custom_average_precision labels scores = Returns (Finite q) /\
       (q == average_precision_spec labels scores)%Q).
Proof.
  split; [eexists; split; [vm_compute; reflexivity | reflexivity] |].
  split; [vm_compute; reflexivity |].
  split; [reflexivity |].
  split; [| exact custom_average_precision_ranked_input].
  eexists. split; [vm_compute; reflexivity |].
  split; reflexivity.
Qed.

Lemma custom_average_precision_unsorted_scores_witness :
  exists q,
    custom_average_precision lecture_labels lecture_scores
    = Returns (Finite q) /\
    (q == average_precision_spec lecture_labels lecture_scores)%Q.
Proof.
  apply (proj2 (proj2 (proj2 (proj2
           custom_average_precision_unsorted_scores)))
           lecture_labels lecture_scores).
  - reflexivity.
  - vm_compute. lia.
  - vm_compute. reflexivity.
Defined.

(** ** Claims about the adjusted score *)

(** C8, as the code has it.  For a fraction other than 1 the adjusted score
    is [(raw - frac) / (1 - frac)], so the fraction itself is sent to 0 and
    1 is sent to 1.  For a fraction equal to 1 nothing is raised: NumPy
    returns [nan] when the raw value is 1 too, and an infinity otherwise. *)
Theorem adj_ave_precision_formula :
  forall raw frac : Q,
    (~ (frac == 1)%Q ->
     adj_ave_precision raw frac = Returns (Finite ((raw - frac) / (1 - frac)))
     /\ (exists q, adj_ave_precision frac frac = Returns (Finite q)
                   /\ (q == 0)%Q)
     /\ (exists q, adj_ave_precision 1 frac = Returns (Finite q)
                   /\ (q == 1)%Q)) /\
    ((frac == 1)%Q ->
     ((raw == 1)%Q -> adj_ave_precision raw frac = Returns NaN) /\
     ((1 < raw)%Q -> adj_ave_precision raw frac = Returns PosInf) /\
     ((raw < 1)%Q -> adj_ave_precision raw frac = Returns NegInf)).
Proof.
  intros raw frac. unfold adj_ave_precision, np_truediv. split.
  - intros Hne.
    assert (Hnz : ~ (1 - frac == 0)%Q) by (intros H; apply Hne; lra).
    destruct (Qeq_bool (1 - frac) 0) eqn:E;
      [apply Qeq_bool_iff in E; contradiction |].
    split; [reflexivity |].
    split; eexists; (split; [reflexivity |]).
    + unfold Qdiv. setoid_replace (frac - frac)%Q with 0%Q by ring. ring.
    + now apply Qmult_inv_r.
  - intros Hone.
    assert (Hz : (1 - frac == 0)%Q) by lra.
    apply Qeq_bool_iff in Hz. rewrite Hz.
    repeat split; intros Hraw.
    + assert (H0 : (raw - frac == 0)%Q) by lra.
      apply Qeq_bool_iff in H0. now rewrite H0.
    + destruct (Qeq_bool (raw - frac) 0) eqn:E;
        [apply Qeq_bool_iff in E; lra |].
      assert (Hlt : (0 < raw - frac)%Q) by lra.
      apply Qltb_lt in Hlt. now rewrite Hlt.
    + destruct (Qeq_bool (raw - frac) 0) eqn:E;
        [apply Qeq_bool_iff in E; lra |].
      assert (Hge : (raw - frac <= 0)%Q) by lra.
      apply Qltb_ge in Hge. now rewrite Hge.
Qed.

Lemma adj_ave_precision_formula_witness :
  (adj_ave_precision (3 # 4) (1 # 2)
   = Returns (Finite (((3 # 4) - (1 # 2)) / (1 - (1 # 2))))
   /\ (exists q, adj_ave_precision (1 # 2) (1 # 2) = Returns (Finite q)
                 /\ (q == 0)%Q)
   /\ (exists q, adj_ave_precision 1 (1 # 2) = Returns (Finite q)
                 /\ (q == 1)%Q)) /\
  adj_ave_precision (3 # 4) 1 = Returns NegInf.
Proof.
  split.
  - apply (proj1 (adj_ave_precision_formula (3 # 4) (1 # 2))).
    intros H. discriminate H.
  - apply (proj2 (adj_ave_precision_formula (3 # 4) 1)); reflexivity.
Defined.

(** C8, as the specification states it, fails for a fraction of 1: raw
    value 1/2 gives minus infinity, and raw value 1 gives [nan]; nothing is
    raised. *)
Lemma adj_ave_precision_fraction_one :
  adj_ave_precision (1 # 2) 1 = Returns NegInf /\
  adj_ave_precision 1 1 = Returns NaN /\
  ~ (exists e, adj_ave_precision (1 # 2) 1 = Raises e).
Proof.
  repeat split. intros [e He]. discriminate He.
Qed.

(** ** Counting in sorted lists *)

Section Counting.

Context {A : Type}.

Lemma cnt_app (f : A -> bool) (l l' : list A) :
  length (filter f (l ++ l')) = (length (filter f l) + length (filter f l'))%nat.
Proof. now rewrite filter_app, length_app. Qed.

Lemma cnt_split (f : A -> bool) (n : nat) (l : list A) :
  length (filter f l)
  = (length (filter f (firstn n l)) + length (filter f (skipn n l)))%nat.
Proof. now rewrite <- cnt_app, firstn_skipn. Qed.

Lemma cnt_perm (f : A -> bool) (l l' : list A) :
  Permutation l l' -> length (filter f l) = length (filter f l').
Proof.
  induction 1 as [| x l l' _ IH | x y l | l l' l'' _ IH1 _ IH2];
    cbn [filter].
  - reflexivity.
  - destruct (f x); cbn [length]; congruence.
  - destruct (f x), (f y); reflexivity.
  - congruence.
Qed.

Lemma cnt_le (f g : A -> bool) (l : list A) :
  (forall x, In x l -> f x = true -> g x = true) ->
  (length (filter f l) <= length (filter g l))%nat.
Proof.
  induction l as [| x l IH]; intros H; cbn [filter]; [lia |].
  assert (IH' : (length (filter f l) <= length (filter g l))%nat)
    by (apply IH; intros y Hy; apply H; now right).
  pose proof (H x (or_introl eq_refl)) as Hx.
  destruct (f x), (g x); cbn [length]; try lia.
  all: specialize (Hx eq_refl); discriminate Hx.
Qed.

Lemma cnt_eq (f g : A -> bool) (l : list A) :
  (forall x, In x l -> f x = g x) ->
  length (filter f l) = length (filter g l).
Proof.
  intros H. apply Nat.le_antisymm; apply cnt_le; intros x Hx;
    rewrite (H x Hx); auto.
Qed.

Lemma cnt_none (f : A -> bool) (l : list A) :
  (forall x, In x l -> f x = false) -> length (filter f l) = 0%nat.
Proof.
  induction l as [| x l IH]; intros H; cbn [filter]; [reflexivity |].
  rewrite (H x (or_introl eq_refl)). apply IH. intros y Hy. apply H.
  now right.
Qed.

Lemma cnt_negb (f : A -> bool) (l : list A) :
  (length (filter f l) + length (filter (fun x => negb (f x)) l))%nat
  = length l.
Proof.
  induction l as [| x l IH]; cbn [filter]; [reflexivity |].
  destruct (f x); cbn [negb length]; lia.
Qed.

Lemma cnt_all (f : A -> bool) (l : list A) :
  (forall x, In x l -> f x = true) -> length (filter f l) = length l.
Proof.
  intros H. rewrite <- (cnt_negb f l), (cnt_none (fun x => negb (f x))).
  - lia.
  - intros x Hx. now rewrite (H x Hx).
Qed.

Lemma firstn_S_app (pre : list A) (p : A) (post : list A) :
  firstn (S (length pre)) (pre ++ p :: post) = pre ++ [p].
Proof.
  induction pre as [| a pre IH]; cbn [length app firstn].
  - reflexivity.
  - f_equal. exact IH.
Qed.

Variable R : A -> A -> Prop.

Lemma sorted_split_bounds (pre : list A) (p : A) (post : list A) :
  StronglySorted R (pre ++ p :: post) ->
  (forall x, In x pre -> R x p) /\ (forall y, In y post -> R p y).
Proof.
  induction pre as [| a pre IH]; cbn [app]; intros Hs;
    apply StronglySorted_inv in Hs as [Hs Ha]; rewrite Forall_forall in Ha.
  - split; [intros x [] | exact Ha].
  - destruct (IH Hs) as [IHpre IHpost]. split; [| exact IHpost].
    intros x [<- | Hx]; [| now apply IHpre].
    apply Ha, in_or_app. right. now left.
Qed.

Lemma sorted_nth_error (l : list A) (i j : nat) (p q : A) :
  StronglySorted R l -> (i < j)%nat ->
  nth_error l i = Some p -> nth_error l j = Some q -> R p q.
Proof.
  intros Hs. revert i j.
  induction Hs as [| a l Hs IH Ha]; intros i j Hij Hp Hq.
  - destruct i; discriminate Hp.
  - destruct j as [| j]; [lia |]. cbn [nth_error] in Hq.
    destruct i as [| i]; cbn [nth_error] in Hp.
    + injection Hp as <-. rewrite Forall_forall in Ha.
      apply Ha. eapply nth_error_In, Hq.
    + apply (IH i j); [lia | exact Hp | exact Hq].
Qed.

Variable D : A -> bool.

(** [D] is closed downwards along [R]. *)
Hypothesis D_down : forall x y, R x y -> D y = true -> D x = true.

(** In a sorted list the entries of a downwards closed set come first: a
    prefix no longer than their number holds only such entries, ... *)
Lemma sorted_down_prefix (l : list A) (n : nat) :
  StronglySorted R l ->
  (n <= length (filter D l))%nat ->
  forall x, In x (firstn n l) -> D x = true.
Proof.
  intros Hs. revert n.
  induction Hs as [| a l Hs IH Ha]; intros n Hn x Hx.
  - now rewrite firstn_nil in Hx.
  - destruct n as [| n]; [destruct Hx |].
    cbn [firstn filter] in Hx, Hn.
    destruct (D a) eqn:Da.
    + destruct Hx as [<- | Hx]; [exact Da |].
      apply (IH n); [cbn [length] in Hn; lia | exact Hx].
    + exfalso. rewrite cnt_none in Hn; [lia |].
      intros y Hy. destruct (D y) eqn:Dy; [| reflexivity].
      rewrite Forall_forall in Ha.
      rewrite (D_down a y (Ha y Hy) Dy) in Da. discriminate Da.
Qed.

(** ... and a prefix at least as long as their number holds all of them. *)
Lemma sorted_down_suffix (l : list A) (n : nat) :
  StronglySorted R l ->
  (length (filter D l) <= n)%nat ->
  forall x, In x (skipn n l) -> D x = false.
Proof.
  intros Hs. revert n.
  induction Hs as [| a l Hs IH Ha]; intros n Hn x Hx.
  - now rewrite skipn_nil in Hx.
  - assert (Hcut : D a = false -> forall y, In y l -> D y = false).
    { intros Da y Hy. destruct (D y) eqn:Dy; [| reflexivity].
      rewrite Forall_forall in Ha.
      rewrite (D_down a y (Ha y Hy) Dy) in Da. discriminate Da. }
    cbn [filter] in Hn. destruct (D a) eqn:Da.
    + destruct n as [| n]; [cbn [length] in Hn; lia |].
      cbn [skipn] in Hx. apply (IH n); [cbn [length] in Hn; lia | exact Hx].
    + destruct n as [| n].
      * cbn [skipn] in Hx. destruct Hx as [<- | Hx]; [exact Da |].
        now apply Hcut.
      * cbn [skipn] in Hx. apply Hcut; [reflexivity |].
        rewrite <- (firstn_skipn n l). apply in_or_app. now right.
Qed.

End Counting.

(** ** Ties in the ranking *)

Lemma tuple_le_refl (p : Q * bool) : tuple_le p p.
Proof.
  right. split; [reflexivity |]. destruct (snd p); cbn; auto.
Qed.

Lemma count_true_map_snd (l : list (Q * bool)) :
  count_true (map snd l) = length (filter snd l).
Proof.
  unfold count_true.
  induction l as [| [x b] l IH]; cbn [map filter snd]; [reflexivity |].
  destruct b; cbn [length]; congruence.
Qed.

(** The ranking of the code puts no more anomalies before a given entry
    than any other ascending arrangement of the same pairs. *)
Lemma prefix_fewest_true_at (lex other pre post : list (Q * bool))
    (p : Q * bool) :
  lex = pre ++ p :: post ->
  StronglySorted tuple_le lex ->
  StronglySorted score_le other ->
  Permutation lex other ->
  (length (filter snd (pre ++ [p]))
   <= length (filter snd (firstn (S (length pre)) other)))%nat.
Proof.
  intros Hlex Hs Hso Hperm. subst lex.
  destruct (sorted_split_bounds tuple_le pre p post Hs) as [Hpre Hpost].
  set (n := S (length pre)).
  set (D_lt := fun x : Q * bool => Qltb (fst x) (fst p)).
  set (D_le := fun x : Q * bool => Qle_bool (fst x) (fst p)).
  assert (Hdown_lt : forall x y : Q * bool,
             score_le x y -> D_lt y = true -> D_lt x = true).
  { unfold D_lt, score_le. intros x y Hxy Hy.
    apply Qltb_lt in Hy. apply Qltb_lt. now apply Qle_lt_trans with (fst y). }
  assert (Hdown_le : forall x y : Q * bool,
             score_le x y -> D_le y = true -> D_le x = true).
  { unfold D_le, score_le. intros x y Hxy Hy.
    apply Qle_bool_iff in Hy. apply Qle_bool_iff.
    now apply Qle_trans with (fst y). }
  assert (Hhead : forall x, In x (pre ++ [p]) -> tuple_le x p).
  { intros x Hx. apply in_app_or in Hx as [Hx | [<- | []]];
      [now apply Hpre | apply tuple_le_refl]. }
  assert (Htail : forall y, In y (p :: post) -> tuple_le p y).
  { intros y [<- | Hy]; [apply tuple_le_refl | now apply Hpost]. }
  assert (Hsplit : pre ++ p :: post = (pre ++ [p]) ++ post)
    by now rewrite <- app_assoc.
  assert (Hlen : length (pre ++ [p]) = n)
    by (rewrite length_app; cbn [length]; lia).
  assert (Hlen' : length (firstn n other) = n).
  { rewrite length_firstn, <- (Permutation_length Hperm), length_app.
    cbn [length]. lia. }
  (* every entry of the first [n] of [other] has a score at most that of [p] *)
  assert (F1 : forall x, In x (firstn n other) -> D_le x = true).
  { apply (sorted_down_prefix score_le D_le Hdown_le); [exact Hso |].
    rewrite <- (cnt_perm D_le _ _ Hperm), Hsplit,
      (cnt_app D_le (pre ++ [p]) post).
    rewrite (cnt_all D_le (pre ++ [p])); [lia |].
    intros x Hx. apply Qle_bool_iff.
    exact (tuple_le_score_le x p (Hhead x Hx)). }
  (* every entry of [other] with a smaller score is among its first [n] *)
  assert (F2 : forall x, In x (skipn n other) -> D_lt x = false).
  { apply (sorted_down_suffix score_le D_lt Hdown_lt); [exact Hso |].
    rewrite <- (cnt_perm D_lt _ _ Hperm), cnt_app.
    rewrite (cnt_none D_lt (p :: post)).
    - pose proof (filter_length_le D_lt pre). lia.
    - intros y Hy. apply Qltb_ge.
      exact (tuple_le_score_le p y (Htail y Hy)). }
  destruct (snd p) eqn:Hb.
  - (* [p] is an anomaly: count the non-anomalies *)
    set (F := fun x : Q * bool => D_le x && negb (snd x)).
    assert (H1 : length (filter (fun x => negb (snd x)) (pre ++ [p]))
                 = length (filter F (pre ++ p :: post))).
    { rewrite Hsplit, (cnt_app F (pre ++ [p]) post), (cnt_none F post).
      - rewrite Nat.add_0_r. apply cnt_eq. intros x Hx. unfold F.
        replace (D_le x) with true; [reflexivity |].
        symmetry. apply Qle_bool_iff.
        exact (tuple_le_score_le x p (Hhead x Hx)).
      - intros y Hy. unfold F, D_le.
        destruct (Hpost y Hy) as [Hlt | [Heq Hle]].
        + replace (Qle_bool (fst y) (fst p)) with false; [reflexivity |].
          symmetry. apply not_true_iff_false. rewrite Qle_bool_iff.
          now apply Qlt_not_le.
        + rewrite Hb in Hle. cbn in Hle. rewrite Hle. cbn.
          apply andb_false_r. }
    assert (H2 : (length (filter (fun x => negb (snd x)) (firstn n other))
                  <= length (filter F other))%nat).
    { rewrite (cnt_split F n other).
      rewrite (cnt_eq (fun x => negb (snd x)) F (firstn n other)); [lia |].
      intros x Hx. unfold F. now rewrite (F1 x Hx). }
    rewrite <- (cnt_perm F _ _ Hperm) in H2.
    pose proof (cnt_negb snd (pre ++ [p])) as N1.
    pose proof (cnt_negb snd (firstn n other)) as N2.
    lia.
  - (* [p] is no anomaly: the anomalies before it have a smaller score *)
    set (T := fun x : Q * bool => D_lt x && snd x).
    assert (H1 : length (filter snd (pre ++ [p]))
                 = length (filter T (pre ++ [p]))).
    { apply cnt_eq. intros x Hx. unfold T, D_lt.
      destruct (snd x) eqn:Hx1; [| now rewrite andb_false_r].
      rewrite andb_true_r. symmetry. apply Qltb_lt.
      destruct (Hhead x Hx) as [Hlt | [_ Hle]]; [exact Hlt |].
      rewrite Hx1, Hb in Hle. discriminate Hle. }
    assert (H2 : (length (filter T (pre ++ [p]))
                  <= length (filter T (pre ++ p :: post)))%nat)
      by (rewrite Hsplit, (cnt_app T (pre ++ [p]) post); lia).
    assert (H3 : length (filter T other)
                 = length (filter T (firstn n other))).
    { rewrite (cnt_split T n other), (cnt_none T (skipn n other)); [lia |].
      intros x Hx. unfold T. now rewrite (F2 x Hx). }
    assert (H4 : (length (filter T (firstn n other))
                  <= length (filter snd (firstn n other)))%nat).
    { apply cnt_le. intros x _ Hx. unfold T in Hx.
      now apply andb_true_iff in Hx. }
    rewrite (cnt_perm T _ _ Hperm) in H2. lia.
Qed.

Lemma prefix_fewest_true (lex other : list (Q * bool)) (n : nat) :
  StronglySorted tuple_le lex ->
  StronglySorted score_le other ->
  Permutation lex other ->
  (count_true (map snd (firstn n lex))
   <= count_true (map snd (firstn n other)))%nat.
Proof.
  intros Hs Hso Hperm. rewrite !count_true_map_snd.
  destruct n as [| n]; [cbn; lia |].
  destruct (nth_error lex n) as [p |] eqn:Hn.
  - apply nth_error_split in Hn as (pre & post & Hlex & Hlen). subst n.
    rewrite Hlex at 1. rewrite firstn_S_app.
    now apply (prefix_fewest_true_at lex other pre post p).
  - apply nth_error_None in Hn.
    rewrite !firstn_all2;
      [| rewrite <- (Permutation_length Hperm); lia | lia].
    now rewrite (cnt_perm snd _ _ Hperm).
Qed.

Lemma p_at_mono (l l' : list bool) (n : nat) :
  (count_true (firstn n l) <= count_true (firstn n l'))%nat ->
  (p_at l n <= p_at l' n)%Q.
Proof.
  intros H. unfold p_at, Qdiv. apply Qmult_le_compat_r.
  - rewrite <- Zle_Qle. lia.
  - apply Qinv_le_0_compat. change 0%Q with (inject_Z 0).
    rewrite <- Zle_Qle. lia.
Qed.

(** C10.  The ranking that [precision_at_n] computes orders entries of
    equal score by label, [False] before [True]: an anomaly is never ranked
    before a non-anomaly of the same score.  It is one of the ascending
    arrangements of the [(score, label)] pairs, and at every rank [n] from 1
    to [n_max] the value that [precision_at_n] returns is at most the P@n of
    any other ascending arrangement of the same pairs, that is, of any other
    way of ordering the ties. *)
Theorem precision_at_n_ties_pessimistic :
  (forall (labels : list bool) (scores : list Q) (i j : nat)
          (p q : Q * bool),
     (i < j)%nat ->
     nth_error (sorted (zip scores labels)) i = Some p ->
     nth_error (sorted (zip scores labels)) j = Some q ->
     (fst p == fst q)%Q ->
     snd p = true -> snd q = true) /\
  (forall (labels : list bool) (scores : list Q) (n_max : Z)
          (other : list (Q * bool)) (n : nat),
     Permutation other (zip scores labels) ->
     StronglySorted score_le other ->
     (1 <= n)%nat -> Z.of_nat n <= effective_n_max scores n_max ->
     Permutation (sorted (zip scores labels)) (zip scores labels) /\
     StronglySorted score_le (sorted (zip scores labels)) /\
     exists r x,
       precision_at_n labels scores n_max = Returns r /\
       nth_error r (n - 1) = Some x /\
       x = p_at (map snd (sorted (zip scores labels))) n /\
       (x <= p_at (map snd other) n)%Q).
Proof.
  split.
  - intros labels scores i j p q Hij Hp Hq Heq Htrue.
    pose proof (sorted_nth_error tuple_le _ i j p q
                  (sorted_sorted (zip scores labels)) Hij Hp Hq) as Hle.
    destruct Hle as [Hlt | [_ Hle]].
    + rewrite Heq in Hlt. now apply Qlt_irrefl in Hlt.
    + rewrite Htrue in Hle. exact Hle.
  - intros labels scores n_max other n Hperm Hsorted Hn Hmax.
    split; [apply sorted_perm |].
    split; [apply sorted_by_score |].
    eexists. eexists.
    split; [apply precision_at_n_returns |].
    split; [apply nth_error_p_at; lia |].
    split; [reflexivity |].
    apply p_at_mono. rewrite !firstn_map.
    apply prefix_fewest_true.
    + apply sorted_sorted.
    + exact Hsorted.
    + rewrite Hperm. apply sorted_perm.
Qed.

Lemma precision_at_n_ties_pessimistic_witness :
  Permutation (sorted (zip [1; 1; 1; 1]%Q [true; false; true; false]))
    (zip [1; 1; 1; 1]%Q [true; false; true; false]) /\
  StronglySorted score_le
    (sorted (zip [1; 1; 1; 1]%Q [true; false; true; false])) /\
  exists r x,
    precision_at_n [true; false; true; false] [1; 1; 1; 1]%Q 0 = Returns r /\
    nth_error r (1 - 1) = Some x /\
    x = p_at (map snd (sorted (zip [1; 1; 1; 1]%Q
                                   [true; false; true; false]))) 1 /\
    (x <= p_at (map snd (zip [1; 1; 1; 1]%Q [true; false; true; false])) 1)%Q.
Proof.
  apply (proj2 precision_at_n_ties_pessimistic
           [true; false; true; false] [1; 1; 1; 1]%Q 0
           (zip [1; 1; 1; 1]%Q [true; false; true; false]) 1%nat).
  - reflexivity.
  - repeat constructor; unfold score_le; cbn; discriminate.
  - lia.
  - vm_compute. discriminate.
Defined.

(** * Further properties of the code *)

(** ** The P@n curve *)

(** Two rankings of the same pairs in the order of the sort hold the same
    number of anomalies in every prefix. *)
Lemma ranked_prefix_counts (l l' : list (Q * bool)) (n : nat) :
  Permutation l l' ->
  count_true (map snd (firstn n (sorted l)))
  = count_true (map snd (firstn n (sorted l'))).
Proof.
  intros Hperm.
  assert (Hs : Permutation (sorted l) (sorted l')).
  { rewrite (sorted_perm l), (sorted_perm l'). exact Hperm. }
  apply Nat.le_antisymm; apply prefix_fewest_true;
    auto using sorted_sorted, sorted_by_score.
  now symmetry.
Qed.

(** X1.  The curve does not depend on the order in which the observations are
    given: permuting the [(score, label)] pairs leaves every P@n
    unchanged, ties included. *)
Theorem precision_at_n_order_independent :
  forall (labels labels' : list bool) (scores scores' : list Q) (n_max : Z),
    Permutation (zip scores labels) (zip scores' labels') ->
    length scores = length scores' ->
    precision_at_n labels scores n_max = precision_at_n labels' scores' n_max.
Proof.
  intros labels labels' scores scores' n_max Hperm Hlen.
  rewrite !precision_at_n_returns. unfold effective_n_max. rewrite <- Hlen.
  f_equal. apply map_ext. intros n. unfold p_at.
  rewrite !firstn_map, (ranked_prefix_counts _ _ n Hperm). reflexivity.
Qed.

Lemma precision_at_n_order_independent_witness :
  precision_at_n [true; false; true] [1; 1; 0]%Q 0
  = precision_at_n [true; true; false] [0; 1; 1]%Q 0.
Proof.
  apply (precision_at_n_order_independent
           [true; false; true] [true; true; false]
           [1; 1; 0]%Q [0; 1; 1]%Q 0).
  - unfold zip. cbn [combine].
    apply Permutation_sym, perm_trans with (l' := [(1%Q, true); (0%Q, true); (1%Q, false)]).
    + apply perm_swap.
    + apply perm_skip, perm_swap.
  - reflexivity.
Defined.

Lemma firstn_seq_le (k start len : nat) :
  (k <= len)%nat -> firstn k (seq start len) = seq start k.
Proof.
  intros Hk. replace len with (k + (len - k))%nat by lia.
  rewrite seq_app, firstn_app, length_seq, Nat.sub_diag.
  cbn [firstn]. rewrite app_nil_r.
  apply firstn_all2. rewrite length_seq. lia.
Qed.

(** X2.  A positive [n_max] within the number of scores gives the first [n_max]
    values of the full curve. *)
Theorem precision_at_n_cap_is_prefix :
  forall (labels : list bool) (scores : list Q) (n_max : Z),
    1 <= n_max <= Z.of_nat (length scores) ->
    exists full,
      precision_at_n labels scores 0 = Returns full /\
      precision_at_n labels scores n_max
      = Returns (firstn (Z.to_nat n_max) full).
Proof.
  intros labels scores n_max Hn.
  eexists. split; [apply precision_at_n_returns |].
  rewrite precision_at_n_returns. f_equal.
  unfold effective_n_max. cbn [Z.eqb].
  destruct (Z.eqb_spec n_max 0); [lia |].
  rewrite firstn_map, firstn_seq_le by lia. reflexivity.
Qed.

Lemma precision_at_n_cap_is_prefix_witness :
  exists full,
    precision_at_n lecture_labels lecture_scores 0 = Returns full /\
    precision_at_n lecture_labels lecture_scores 2
    = Returns (firstn (Z.to_nat 2) full).
Proof.
  apply (precision_at_n_cap_is_prefix lecture_labels lecture_scores 2).
  cbn. lia.
Defined.

Lemma count_true_perm (l l' : list bool) :
  Permutation l l' -> count_true l = count_true l'.
Proof. apply cnt_perm. Qed.

Lemma p_at_last (labels : list bool) (scores : list Q) :
  length labels = length scores ->
  p_at (map snd (sorted (zip scores labels))) (length scores)
  = (inject_Z (sum labels) / inject_Z (Z.of_nat (length labels)))%Q.
Proof.
  intros Hlen. unfold p_at.
  rewrite firstn_all2
    by (rewrite length_map, sorted_length, zip_length; auto).
  rewrite (count_true_perm _ _ (ranked_labels_perm labels scores Hlen)).
  now rewrite sum_count_true, Hlen.
Qed.

(** X3.  The curve over the whole data set ends at the fraction of anomalies,
    whatever the scores are. *)
Theorem precision_at_n_ends_at_fraction :
  forall (labels : list bool) (scores : list Q),
    length labels = length scores ->
    labels <> [] ->
    exists full frac,
      precision_at_n labels scores 0 = Returns full /\
      frac_anomalies labels = Returns frac /\
      nth_error full (length scores - 1) = Some frac.
Proof.
  intros labels scores Hlen Hne.
  assert (Hpos : (1 <= length scores)%nat).
  { destruct labels; [congruence | cbn in Hlen; lia]. }
  eexists. eexists.
  split; [apply precision_at_n_returns |].
  unfold frac_anomalies, truediv.
  destruct (Z.eqb_spec (Z.of_nat (length labels)) 0); [lia |].
  split; [reflexivity |].
  unfold effective_n_max. cbn [Z.eqb]. rewrite Nat2Z.id.
  rewrite nth_error_p_at by lia.
  now rewrite p_at_last.
Qed.

Lemma precision_at_n_ends_at_fraction_witness :
  exists full frac,
    precision_at_n lecture_labels lecture_scores 0 = Returns full /\
    frac_anomalies lecture_labels = Returns frac /\
    nth_error full (length lecture_scores - 1) = Some frac.
Proof.
  apply (precision_at_n_ends_at_fraction lecture_labels lecture_scores).
  - reflexivity.
  - discriminate.
Defined.

(** ** The adjusted P@n curve *)

Lemma np_truediv_finite (x y : Q) :
  ~ (y == 0)%Q -> np_truediv x y = Finite (x / y).
Proof.
  intros Hy. unfold np_truediv.
  destruct (Qeq_bool y 0) eqn:E; [| reflexivity].
  apply Qeq_bool_iff in E. contradiction.
Qed.

Lemma inject_Z_pos (n : nat) : (1 <= n)%nat -> (0 < inject_Z (Z.of_nat n))%Q.
Proof.
  intros Hn. change 0%Q with (inject_Z 0). rewrite <- Zlt_Qlt. lia.
Qed.

(** X5.  With at least one non-anomaly among the labels, every adjusted value
    is a number at most 1, and the adjusted curve ends at 0, the level of a
    random ranking. *)
Theorem adj_p_at_n_baseline :
  forall (labels : list bool) (scores : list Q),
    length labels = length scores ->
    (count_true labels < length labels)%nat ->
    exists r,
      adj_p_at_n labels scores = Returns r /\
      length r = length scores /\
      Forall (fun x => exists q, x = Finite q /\ (q <= 1)%Q) r /\
      exists q0,
        nth_error r (length scores - 1) = Some (Finite q0) /\ (q0 == 0)%Q.
Proof.
  intros labels scores Hlen Hsome.
  assert (Hpos : (1 <= length labels)%nat) by lia.
  unfold adj_p_at_n, frac_anomalies, truediv.
  destruct (Z.eqb_spec (Z.of_nat (length labels)) 0); [lia |].
  cbn [bind]. rewrite precision_at_n_returns. cbn [bind].
  unfold effective_n_max. cbn [Z.eqb]. rewrite Nat2Z.id.
  set (frac := (inject_Z (sum labels) / inject_Z (Z.of_nat (length labels)))%Q).
  assert (Hfrac : (frac < 1)%Q).
  { unfold frac. apply Qlt_shift_div_r; [now apply inject_Z_pos |].
    rewrite Qmult_1_l, <- Zlt_Qlt, sum_count_true. lia. }
  assert (Hnz : ~ (1 - frac == 0)%Q) by (intros H; lra).
  eexists. split; [reflexivity |].
  split; [now rewrite !length_map, length_seq |].
  split.
  - apply Forall_map, Forall_map, Forall_forall. intros k Hk.
    apply in_seq in Hk. rewrite (np_truediv_finite _ _ Hnz).
    eexists. split; [reflexivity |].
    apply Qle_shift_div_r; [lra |].
    destruct (p_at_bounds (map snd (sorted (zip scores labels))) k) as [_ H1];
      [lia | lra].
  - rewrite nth_error_map, nth_error_p_at by lia. cbn [option_map].
    rewrite (p_at_last labels scores Hlen). fold frac.
    rewrite (np_truediv_finite _ _ Hnz).
    eexists. split; [reflexivity |].
    unfold Qdiv. setoid_replace (frac - frac)%Q with 0%Q by ring. ring.
Qed.

Lemma adj_p_at_n_baseline_witness :
  exists r,
    adj_p_at_n lecture_labels lecture_scores = Returns r /\
    length r = length lecture_scores /\
    Forall (fun x => exists q, x = Finite q /\ (q <= 1)%Q) r /\
    exists q0,
      nth_error r (length lecture_scores - 1) = Some (Finite q0)
      /\ (q0 == 0)%Q.
Proof.
  apply (adj_p_at_n_baseline lecture_labels lecture_scores).
  - reflexivity.
  - cbn. lia.
Defined.




(** ** Outcomes and range of the average precision *)

Lemma np_mul_mismatch (a b : list Q) :
  length a <> length b ->
  (2 <= length a)%nat -> (2 <= length b)%nat ->
  np_mul a b = Raises ValueError.
Proof.
  intros Hne Ha Hb. unfold np_mul.
  destruct (Nat.eqb_spec (length a) (length b)); [contradiction |].
  destruct a as [| x [| x' a]]; cbn in Ha; try lia.
  destruct b as [| y [| y' b]]; cbn in Hb; try lia.
  reflexivity.
Qed.

Lemma np_mul_returns (a b : list Q) :
  length a = length b \/ length a = 1%nat ->
  exists r, np_mul a b = Returns r.
Proof.
  intros H. unfold np_mul.
  destruct (Nat.eqb_spec (length a) (length b)); [eauto |].
  destruct H as [H | H]; [contradiction |].
  destruct a as [| x [| x' a]]; cbn in H; try lia. eauto.
Qed.

Lemma ranked_length (labels : list bool) (scores : list Q) :
  length (map snd (sorted (zip scores labels)))
  = Nat.min (length scores) (length labels).
Proof.
  rewrite length_map, sorted_length. unfold zip. apply length_combine.
Qed.

(** X7.  How a call of [custom_average_precision] ends, by the lengths of its
    arguments: an empty argument raises [IndexError] (the sorted array has
    no second axis), labels shorter than the scores raise [ValueError] when
    the product of the two arrays cannot be broadcast (two labels or more),
    and every other case returns a value; a single label is broadcast
    against any number of scores. *)
Theorem custom_average_precision_outcomes :
  forall (labels : list bool) (scores : list Q),
    (labels = [] \/ scores = [] ->
     custom_average_precision labels scores = Raises IndexError) /\
    ((2 <= length labels < length scores)%nat ->
     custom_average_precision labels scores = Raises ValueError) /\
    (labels <> [] -> scores <> [] ->
     (length labels = 1 \/ length scores <= length labels)%nat ->
     exists x, custom_average_precision labels scores = Returns x).
Proof.
  intros labels scores.
  assert (Hgo : labels <> [] -> scores <> [] ->
                custom_average_precision labels scores
                = (weighted <- np_mul
                     (map b2q (map snd (sorted (zip scores labels))))
                     (map (p_at (map snd
                             (sorted (zip scores
                                (map snd (sorted (zip scores labels)))))))
                          (seq 1 (length scores))) ;;
                   Returns (np_truediv (np_sum weighted)
                              (np_sum (map b2q (map snd
                                 (sorted (zip scores labels)))))))).
  { intros Hl Hs. unfold custom_average_precision.
    pose proof (ranked_length labels scores) as Hlen.
    destruct (sorted (zip scores labels)) as [| p rest] eqn:E.
    - cbn [map length] in Hlen.
      destruct labels; [congruence |]. destruct scores; [congruence |].
      cbn in Hlen. lia.
    - cbn [column1 bind]. rewrite precision_at_n_returns. cbn [bind].
      unfold effective_n_max. cbn [Z.eqb]. now rewrite Nat2Z.id. }
  pose proof (ranked_length labels scores) as Hlen.
  split; [| split].
  - intros H. unfold custom_average_precision.
    replace (zip scores labels) with (@nil (Q * bool)); [reflexivity |].
    unfold zip. destruct H as [-> | ->]; [| reflexivity].
    now destruct scores.
  - intros [H2 Hlt].
    rewrite Hgo; [| destruct labels; cbn in H2; [lia | discriminate]
                  | destruct scores; cbn in Hlt; [lia | discriminate]].
    rewrite np_mul_mismatch; [reflexivity | | |];
      rewrite ?length_map, ?length_seq, ?sorted_length; unfold zip;
      rewrite ?length_combine; lia.
  - intros Hl Hs Hcase. rewrite (Hgo Hl Hs).
    destruct (np_mul_returns
                (map b2q (map snd (sorted (zip scores labels))))
                (map (p_at (map snd
                        (sorted (zip scores
                           (map snd (sorted (zip scores labels)))))))
                     (seq 1 (length scores)))) as [r Hr].
    + rewrite !length_map, length_seq, sorted_length. unfold zip.
      rewrite length_combine.
      assert (1 <= length scores)%nat
        by (destruct scores; [congruence | cbn; lia]).
      lia.
    + rewrite Hr. cbn [bind]. eauto.
Qed.

Lemma custom_average_precision_outcomes_witness :
  custom_average_precision [] [1; 2]%Q = Raises IndexError /\
  custom_average_precision [true; false] [1; 2; 3]%Q = Raises ValueError /\
  exists x, custom_average_precision [true] [1; 2; 3]%Q = Returns x.
Proof.
  split; [| split].
  - apply (proj1 (custom_average_precision_outcomes [] [1; 2]%Q)).
    now left.
  - apply (proj1 (proj2 (custom_average_precision_outcomes
                           [true; false] [1; 2; 3]%Q))).
    cbn. lia.
  - apply (proj2 (proj2 (custom_average_precision_outcomes
                           [true] [1; 2; 3]%Q))).
    + discriminate.
    + discriminate.
    + now left.
Defined.

Lemma labels_sum_nonneg (l : list bool) :
  (0 <= fold_right Qplus 0 (map b2q l))%Q.
Proof.
  induction l as [| b l IH]; cbn [map fold_right]; [apply Qle_refl |].
  destruct b; cbn [b2q]; lra.
Qed.

(** A sum weighted by labels lies between 0 and the number of anomalies
    when the weighted values lie between 0 and 1. *)
Lemma weighted_sum_bounds (l : list bool) (P : list Q) :
  Forall (fun x => 0 <= x <= 1)%Q P ->
  (0 <= fold_right Qplus 0
          (map (fun p => fst p * snd p) (combine (map b2q l) P))
   <= fold_right Qplus 0 (map b2q l))%Q.
Proof.
  intros HP. revert l.
  induction HP as [| x P Hx _ IH]; intros l.
  - rewrite combine_nil. cbn [map fold_right].
    split; [apply Qle_refl | apply labels_sum_nonneg].
  - destruct l as [| b l]; cbn [map combine fold_right fst snd].
    + split; apply Qle_refl.
    + destruct (IH l) as [IH0 IH1].
      destruct b; cbn [b2q]; split; nra.
Qed.

(** X8.  With at least one anomaly among labels and scores of equal length,
    [custom_average_precision] returns a number between 0 and 1. *)
Theorem custom_average_precision_range :
  forall (labels : list bool) (scores : list Q),
    length labels = length scores ->
    (1 <= count_true labels)%nat ->
    exists q,
      custom_average_precision labels scores = Returns (Finite q) /\
      (0 <= q <= 1)%Q.
Proof.
  intros labels scores Hlen Hsome.
  unfold custom_average_precision.
  pose proof (ranked_labels_perm labels scores Hlen) as Hperm.
  pose proof (ranked_length labels scores) as Hrl.
  rewrite <- Hlen, Nat.min_id in Hrl.
  set (ia := map snd (sorted (zip scores labels))) in *.
  destruct (sorted (zip scores labels)) as [| p rest] eqn:E.
  { pose proof (count_true_le_length labels). subst ia. cbn in Hrl. lia. }
  cbn [column1 bind]. fold ia.
  rewrite precision_at_n_returns. cbn [bind].
  unfold effective_n_max. cbn [Z.eqb]. rewrite Nat2Z.id.
  unfold np_mul. rewrite !length_map, length_seq.
  fold ia. rewrite Hrl, Hlen, Nat.eqb_refl. cbn [bind].
  set (P := map (p_at (map snd (sorted (zip scores ia))))
                (seq 1 (length scores))).
  assert (HP : Forall (fun x => 0 <= x <= 1)%Q P).
  { apply Forall_map, Forall_forall. intros k Hk. apply in_seq in Hk.
    apply p_at_bounds. lia. }
  destruct (weighted_sum_bounds ia P HP) as [H0 H1].
  assert (Hden : (np_sum (map b2q ia) == inject_Z (Z.of_nat (count_true labels)))%Q).
  { rewrite np_sum_labels. now rewrite (count_true_perm _ _ Hperm). }
  assert (Hpos : (0 < np_sum (map b2q ia))%Q).
  { rewrite Hden. apply inject_Z_pos. lia. }
  rewrite np_truediv_finite by lra.
  eexists. split; [reflexivity |].
  rewrite <- np_sum_fold_right in H0, H1. rewrite <- np_sum_fold_right in H1.
  split.
  - apply Qle_shift_div_l; [exact Hpos | lra].
  - apply Qle_shift_div_r; [exact Hpos | lra].
Qed.

Lemma custom_average_precision_range_witness :
  exists q,
    custom_average_precision [false; false; true] [1; 3; 2]%Q
    = Returns (Finite q) /\
    (0 <= q <= 1)%Q.
Proof.
  apply (custom_average_precision_range [false; false; true] [1; 3; 2]%Q).
  - reflexivity.
  - cbn. lia.
Defined.

(** ** The running sums of [cusum] *)

Section CusumSums.

Context {I : Type}.
Variables mean shift : Q.

(** The rows computed from a given pair of sums. *)
Let rows_from (hs ls : Q) (data : frame I) : list (cusum_row I) :=
  map (fun r => mk_row (fst (fst r)) (snd (fst r))
                       (fst (snd r)) (snd (snd r)))
      (combine data (running_sums mean shift hs ls (map snd data))).

Lemma rows_of_from (data : frame I) :
  rows_of mean shift data = rows_from 0 0 data.
Proof. reflexivity. Qed.

(** Each row's sums against the sums before it and the row's value. *)
Lemma rows_from_step (hs ls : Q) (data : frame I) :
  (0 <= hs)%Q -> (ls <= 0)%Q ->
  Forall (fun r =>
            (0 <= High_Cusum r /\ Low_Cusum r <= 0 /\
             row_value r - mean - shift <= High_Cusum r /\
             Low_Cusum r <= row_value r - mean + shift)%Q /\
            ((High_Cusum r == 0)%Q -> High_Cusum r = 0%Q) /\
            ((Low_Cusum r == 0)%Q -> Low_Cusum r = 0%Q))
         (rows_from hs ls data).
Proof.
  revert hs ls. induction data as [| [ix v] data IH]; intros hs ls Hh Hl.
  - constructor.
  - unfold rows_from. cbn [map running_sums combine fst snd].
    set (x := (hs + v - mean - shift)%Q). set (y := (ls + v - mean + shift)%Q).
    pose proof (Q.le_max_l 0 x) as M1. pose proof (Q.le_max_r 0 x) as M2.
    pose proof (Q.le_min_l 0 y) as N1. pose proof (Q.le_min_r 0 y) as N2.
    constructor.
    + cbn [High_Cusum Low_Cusum row_value]. unfold x, y in *.
      split; [repeat split; lra |]. split.
      * unfold Qmax, GenericMinMax.gmax.
        destruct (Qcompare_spec 0 (hs + v - mean - shift)) as [E | L | G];
          try reflexivity.
        intros H0. rewrite H0 in L. now apply Qlt_irrefl in L.
      * unfold Qmin, GenericMinMax.gmin.
        destruct (Qcompare_spec 0 (ls + v - mean + shift)) as [E | L | G];
          try reflexivity.
        intros H0. rewrite H0 in G. now apply Qlt_irrefl in G.
    + apply IH; assumption.
Qed.

Lemma running_sums_quiet (values : list Q) :
  Forall (fun v => mean - shift <= v <= mean + shift)%Q values ->
  running_sums mean shift 0 0 values = map (fun _ => (0%Q, 0%Q)) values.
Proof.
  induction 1 as [| v values Hv _ IH]; [reflexivity |].
  cbn [map]. rewrite running_sums_cons.
  assert (Hh : py_max 0 (0 + v - mean - shift) = 0%Q).
  { unfold py_max. replace (Qltb 0 (0 + v - mean - shift)) with false;
      [reflexivity |]. symmetry. apply Qltb_ge. lra. }
  assert (Hl : py_min 0 (0 + v - mean + shift) = 0%Q).
  { unfold py_min. replace (Qltb (0 + v - mean + shift) 0) with false;
      [reflexivity |]. symmetry. apply Qltb_ge. lra. }
  rewrite Hh, Hl, IH. reflexivity.
Qed.

Lemma rows_from_app (d1 d2 : frame I) (hs ls : Q) :
  (d1 = [] -> hs = 0%Q /\ ls = 0%Q) ->
  (forall r, nth_error (rows_from hs ls d1) (length d1 - 1) = Some r ->
             High_Cusum r = 0%Q /\ Low_Cusum r = 0%Q) ->
  rows_from hs ls (d1 ++ d2) = rows_from hs ls d1 ++ rows_from 0 0 d2.
Proof.
  revert hs ls. induction d1 as [| [ix v] d1 IH]; intros hs ls Hnil Hlast.
  - destruct (Hnil eq_refl) as [-> ->]. reflexivity.
  - unfold rows_from. cbn [app map running_sums combine fst snd].
    f_equal. apply IH.
    + intros ->. cbn [length Nat.sub] in Hlast.
      exact (Hlast _ eq_refl).
    + intros r Hr. apply Hlast.
      destruct d1 as [| row d1]; [destruct (length [] - 1)%nat; discriminate Hr |].
      cbn [length Nat.sub] in *. rewrite Nat.sub_0_r in *. exact Hr.
Qed.

Lemma rows_of_step (data : frame I) :
  Forall (fun r =>
            (0 <= High_Cusum r /\ Low_Cusum r <= 0 /\
             row_value r - mean - shift <= High_Cusum r /\
             Low_Cusum r <= row_value r - mean + shift)%Q /\
            ((High_Cusum r == 0)%Q -> High_Cusum r = 0%Q) /\
            ((Low_Cusum r == 0)%Q -> Low_Cusum r = 0%Q))
         (rows_of mean shift data).
Proof.
  rewrite rows_of_from. apply rows_from_step; apply Qle_refl.
Qed.

Lemma rows_of_length (data : frame I) :
  length (rows_of mean shift data) = length data.
Proof.
  rewrite <- (rows_of_points mean shift data) at 2. now rewrite length_map.
Qed.

Lemma rows_of_app (d1 d2 : frame I) :
  (forall r,
     nth_error (rows_of mean shift d1) (length (rows_of mean shift d1) - 1)
     = Some r ->
     (High_Cusum r == 0 /\ Low_Cusum r == 0)%Q) ->
  rows_of mean shift (d1 ++ d2)
  = rows_of mean shift d1 ++ rows_of mean shift d2.
Proof.
  intros Hzero. rewrite !rows_of_from. apply rows_from_app; [auto |].
  intros r Hr. rewrite <- rows_of_from, <- rows_of_length in Hr.
  destruct (Hzero r Hr) as [Hh Hl].
  pose proof (rows_of_step d1) as Hstep. rewrite Forall_forall in Hstep.
  destruct (Hstep r (nth_error_In _ _ Hr)) as (_ & Hh0 & Hl0).
  auto.
Qed.

End CusumSums.

(** ** Further properties of [cusum] *)

(** X9.  The high sum is never negative and the low sum never positive, and at
    every point the high sum is at least the point's excess over
    [mean + shift] and the low sum at most its excess over
    [mean - shift]. *)
Theorem cusum_sums_bounds {I : Type} :
  forall (data : frame I) (mean shift threshold : Q),
  exists rows anoms,
    cusum data mean shift threshold = Returns (rows, anoms) /\
    Forall (fun r : cusum_row I =>
              0 <= High_Cusum r /\ Low_Cusum r <= 0 /\
              row_value r - mean - shift <= High_Cusum r /\
              Low_Cusum r <= row_value r - mean + shift)%Q rows.
Proof.
  intros data mean shift threshold.
  eexists. eexists. split; [apply cusum_returns |].
  eapply Forall_impl; [| apply rows_of_step].
  intros r [H _]. exact H.
Qed.

(** X10.  While every value stays within [shift] of [mean], both sums stay at 0,
    and with a threshold that is not negative nothing is flagged. *)
Theorem cusum_quiet_within_shift {I : Type} :
  forall (data : frame I) (mean shift threshold : Q),
    (forall row, In row data ->
                 (mean - shift <= snd row <= mean + shift)%Q) ->
    (0 <= threshold)%Q ->
    exists rows,
      cusum data mean shift threshold = Returns (rows, []) /\
      map point rows = data /\
      Forall (fun r : cusum_row I =>
                High_Cusum r = 0%Q /\ Low_Cusum r = 0%Q) rows.
Proof.
  intros data mean shift threshold Hband Hthr.
  assert (Hz : Forall (fun r : cusum_row I =>
                         High_Cusum r = 0%Q /\ Low_Cusum r = 0%Q)
                      (rows_of mean shift data)).
  { unfold rows_of. rewrite running_sums_quiet.
    - apply Forall_map, Forall_forall. intros [row hl] Hin.
      apply in_combine_r in Hin. apply in_map_iff in Hin as (_ & <- & _).
      split; reflexivity.
    - apply Forall_map, Forall_forall. exact Hband. }
  exists (rows_of mean shift data).
  split; [| split; [apply rows_of_points | exact Hz]].
  rewrite cusum_returns. do 2 f_equal.
  replace (filter (flagged threshold) (rows_of mean shift data))
    with (@nil (cusum_row I)); [reflexivity |].
  symmetry. apply length_zero_iff_nil, cnt_none.
  intros r Hr. rewrite Forall_forall in Hz. destruct (Hz r Hr) as [Hh Hl].
  unfold flagged. rewrite Hh, Hl. apply orb_false_iff.
  split; apply Qltb_ge; lra.
Qed.

Lemma cusum_quiet_within_shift_witness :
  exists rows,
    cusum [(1, 1%Q); (2, 3%Q); (3, 2%Q)] 2 1 0 = Returns (rows, []) /\
    map point rows = [(1, 1%Q); (2, 3%Q); (3, 2%Q)] /\
    Forall (fun r : cusum_row Z =>
              High_Cusum r = 0%Q /\ Low_Cusum r = 0%Q) rows.
Proof.
  apply (cusum_quiet_within_shift (I := Z)
           [(1, 1%Q); (2, 3%Q); (3, 2%Q)] 2%Q 1%Q 0%Q).
  - intros row [<- | [<- | [<- | []]]]; cbn; split; discriminate.
  - discriminate.
Defined.

Lemma filter_filter_impl {A : Type} (P F : A -> bool) (l : list A) :
  (forall x, In x l -> P x = true -> F x = true) ->
  filter P (filter F l) = filter P l.
Proof.
  induction l as [| x l IH]; intros H; cbn [filter]; [reflexivity |].
  assert (IH' : filter P (filter F l) = filter P l)
    by (apply IH; intros y Hy; apply H; now right).
  pose proof (H x (or_introl eq_refl)) as Hx.
  destruct (F x) eqn:Fx; cbn [filter]; rewrite IH'; [reflexivity |].
  destruct (P x); [specialize (Hx eq_refl); discriminate Hx | reflexivity].
Qed.

(** X11.  Raising the threshold changes none of the recorded sums and adds no
    anomaly: the anomalies at the higher threshold are selected among the
    rows flagged at the lower one. *)
Theorem cusum_threshold_monotone {I : Type} :
  forall (data : frame I) (mean shift low high : Q),
    (low <= high)%Q ->
    exists rows,
      cusum data mean shift low
      = Returns (rows, map point (filter (flagged low) rows)) /\
      cusum data mean shift high
      = Returns (rows, map point (filter (flagged high)
                                    (filter (flagged low) rows))).
Proof.
  intros data mean shift low high Hle.
  exists (rows_of mean shift data).
  split; [apply cusum_returns |].
  rewrite cusum_returns. do 3 f_equal. symmetry.
  apply filter_filter_impl. intros r _. unfold flagged.
  rewrite !orb_true_iff, !Qltb_lt. intros [H | H]; [left | right]; lra.
Qed.

Lemma cusum_threshold_monotone_witness :
  exists rows,
    cusum [(1, 0%Q); (2, 3%Q); (3, 9%Q)] 0 1 1
    = Returns (rows, map point (filter (flagged 1) rows)) /\
    cusum [(1, 0%Q); (2, 3%Q); (3, 9%Q)] 0 1 5
    = Returns (rows, map point (filter (flagged 5)
                                  (filter (flagged 1) rows))).
Proof.
  apply (cusum_threshold_monotone (I := Z)
           [(1, 0%Q); (2, 3%Q); (3, 9%Q)] 0%Q 1%Q 1%Q 5%Q).
  discriminate.
Defined.

(** X12.  After a point at which both sums are back at 0 the detector has
    forgotten the past: the run over the whole series is the run over the
    points up to there followed by a fresh run over the rest. *)
Theorem cusum_restarts_at_zero {I : Type} :
  forall (d1 d2 : frame I) (mean shift threshold : Q)
         (rows1 rows2 : list (cusum_row I)) (anoms1 anoms2 : list (I * Q)),
    cusum d1 mean shift threshold = Returns (rows1, anoms1) ->
    cusum d2 mean shift threshold = Returns (rows2, anoms2) ->
    (forall r, nth_error rows1 (length rows1 - 1) = Some r ->
               (High_Cusum r == 0 /\ Low_Cusum r == 0)%Q) ->
    cusum (d1 ++ d2) mean shift threshold
    = Returns (rows1 ++ rows2, anoms1 ++ anoms2).
Proof.
  intros d1 d2 mean shift threshold rows1 rows2 anoms1 anoms2 H1 H2 Hzero.
  rewrite cusum_returns in H1, H2.
  injection H1 as <- <-. injection H2 as <- <-.
  rewrite cusum_returns.
  assert (Happ : rows_of mean shift (d1 ++ d2)
                 = rows_of mean shift d1 ++ rows_of mean shift d2)
    by now apply rows_of_app.
  rewrite Happ, filter_app, map_app. reflexivity.
Qed.

Lemma cusum_restarts_at_zero_witness :
  cusum ([(1, 5%Q); (2, 1%Q)] ++ [(3, 4%Q)]) 2 1 1
  = Returns ([mk_row 1 5 2 0; mk_row 2 1 0 0] ++ [mk_row 3 4 1 0],
             [(1, 5%Q)] ++ []).
Proof.
  apply (cusum_restarts_at_zero (I := Z)
           [(1, 5%Q); (2, 1%Q)] [(3, 4%Q)] 2%Q 1%Q 1%Q).
  - vm_compute. reflexivity.
  - vm_compute. reflexivity.
  - intros r Hr. cbn in Hr. injection Hr as <-. split; reflexivity.
Defined.

(** ** The cost of misclassification *)

Lemma wrap64_small (z : Z) : - 2 ^ 63 <= z < 2 ^ 63 -> wrap64 z = z.
Proof.
  intros Hz. unfold wrap64. rewrite Z.mod_small; lia.
Qed.

(** X15.  With both unit costs positive and error counts that are not
    negative, as long as the total [false_pos * false_pos_cost
    + false_neg * false_neg_cost] fits in an [int64], [misclass_cost]
    prints nothing and returns that total; the total is not negative, it is
    zero exactly when there is no error of either kind, and it does not
    decrease when an error count grows within the same limit.  With a unit
    cost that is not positive the function raises nothing: it prints the
    message and returns [None]. *)
Theorem misclass_cost_behaviour :
  forall false_pos false_neg false_pos_cost false_neg_cost : Z,
    (0 < false_pos_cost < 2 ^ 63 -> 0 < false_neg_cost < 2 ^ 63 ->
     0 <= false_pos -> 0 <= false_neg ->
     false_pos * false_pos_cost + false_neg * false_neg_cost < 2 ^ 63 ->
     exists cost,
       misclass_cost false_pos false_neg false_pos_cost false_neg_cost
       = ([], Some cost) /\
       cost = false_pos * false_pos_cost + false_neg * false_neg_cost /\
       0 <= cost /\
       (cost = 0 <-> false_pos = 0 /\ false_neg = 0) /\
       (forall more_pos more_neg : Z,
          false_pos <= more_pos -> false_neg <= more_neg ->
          more_pos * false_pos_cost + more_neg * false_neg_cost < 2 ^ 63 ->
          exists cost',
            misclass_cost more_pos more_neg false_pos_cost false_neg_cost
            = ([], Some cost') /\ cost <= cost')) /\
    (false_pos_cost <= 0 \/ false_neg_cost <= 0 ->
     misclass_cost false_pos false_neg false_pos_cost false_neg_cost
     = (["Costs must be greater than zero"%string], None)).
Proof.
  intros fp fn cp cn. unfold misclass_cost. split.
  - intros Hp Hn Hfp Hfn Hfit.
    destruct (Z.leb_spec cp 0); [lia |].
    destruct (Z.leb_spec cn 0); [lia |].
    cbn [orb].
    assert (Hin : forall a b,
               0 <= a -> 0 <= b -> a * cp + b * cn < 2 ^ 63 ->
               wrap64 (wrap64 (a * cp) + wrap64 (b * cn))
               = a * cp + b * cn /\
               0 <= a * cp /\ 0 <= b * cn).
    { intros a b Ha Hb Hab.
      assert (0 <= a * cp) by nia. assert (0 <= b * cn) by nia.
      rewrite (wrap64_small (a * cp)), (wrap64_small (b * cn)) by lia.
      rewrite wrap64_small by lia. lia. }
    destruct (Hin fp fn Hfp Hfn Hfit) as (E & H1 & H2).
    eexists. split; [reflexivity |].
    split; [exact E |]. rewrite E.
    split; [lia |]. split; [split |].
    + intros Hzero. split; nia.
    + intros [-> ->]. lia.
    + intros fp' fn' Hfp' Hfn' Hfit'.
      destruct (Hin fp' fn') as (E' & _ & _); [lia | lia | exact Hfit' |].
      eexists. split; [reflexivity |]. rewrite E'. nia.
  - intros H.
    assert (E : (cp <=? 0) || (cn <=? 0) = true).
    { apply orb_true_iff. rewrite !Z.leb_le. exact H. }
    now rewrite E.
Qed.

Lemma misclass_cost_behaviour_witness :
  (exists cost,
     misclass_cost 12 3 10 100 = ([], Some cost) /\
     cost = 12 * 10 + 3 * 100 /\
     0 <= cost /\
     (cost = 0 <-> 12 = 0 /\ 3 = 0) /\
     (forall more_pos more_neg : Z,
        12 <= more_pos -> 3 <= more_neg ->
        more_pos * 10 + more_neg * 100 < 2 ^ 63 ->
        exists cost',
          misclass_cost more_pos more_neg 10 100 = ([], Some cost')
          /\ cost <= cost')) /\
  misclass_cost 12 3 0 100
  = (["Costs must be greater than zero"%string], None).
Proof.
  split.
  - apply (proj1 (misclass_cost_behaviour 12 3 10 100)); lia.
  - apply (proj2 (misclass_cost_behaviour 12 3 0 100)).
    left. lia.
Defined.

(** ** Labelling the top-ranked points *)

Lemma list_setitem_in_range {A : Type} (l : list A) (i : Z) (v : A) :
  0 <= i < Z.of_nat (length l) ->
  list_setitem l i v
  = Returns (firstn (Z.to_nat i) l ++ v :: skipn (S (Z.to_nat i)) l).
Proof.
  intros Hi. unfold list_setitem.
  destruct (Z.leb_spec 0 i); [| lia].
  destruct (Z.ltb_spec i (Z.of_nat (length l))); [| lia].
  reflexivity.
Qed.

Lemma nth_after_set {A : Type} (l : list A) (i j : nat) (v d : A) :
  (i < length l)%nat ->
  nth j (firstn i l ++ v :: skipn (S i) l) d
  = if (j =? i)%nat then v else nth j l d.
Proof.
  revert i j. induction l as [| a l IH]; intros i j Hi; cbn in Hi; [lia |].
  destruct i as [| i]; destruct j as [| j]; cbn; try reflexivity.
  apply IH. lia.
Qed.

Lemma length_after_set {A : Type} (l : list A) (i : nat) (v : A) :
  (i < length l)%nat ->
  length (firstn i l ++ v :: skipn (S i) l) = length l.
Proof.
  intros Hi. rewrite length_app, length_firstn. cbn [length].
  rewrite length_skipn. lia.
Qed.

Lemma label_loop_marks (anom_pts : Z) (rest : list Z) :
  forall (label_pred : list Z) (index : Z),
    index <= anom_pts ->
    (forall item, In item rest ->
                  0 <= item < Z.of_nat (length label_pred)) ->
    exists r,
      label_loop label_pred index rest anom_pts = Returns r /\
      length r = length label_pred /\
      forall j : nat,
        (In (Z.of_nat j) (firstn (Z.to_nat (anom_pts - index + 1)) rest) ->
         nth j r 0 = 1) /\
        (~ In (Z.of_nat j) (firstn (Z.to_nat (anom_pts - index + 1)) rest) ->
         nth j r 0 = nth j label_pred 0).
Proof.
  induction rest as [| item rest IH]; intros lp index Hidx Hrange.
  - exists lp. rewrite firstn_nil. cbn [label_loop].
    split; [reflexivity |]. split; [reflexivity |].
    intros j. split; [intros [] | reflexivity].
  - cbn [label_loop].
    pose proof (Hrange item (or_introl eq_refl)) as Hitem.
    rewrite (list_setitem_in_range lp item 1 Hitem). cbn [bind].
    set (lp' := firstn (Z.to_nat item) lp ++ 1 :: skipn (S (Z.to_nat item)) lp).
    assert (Hlen' : length lp' = length lp)
      by (apply length_after_set; lia).
    assert (Hnth : forall j, nth j lp' 0
                     = if (j =? Z.to_nat item)%nat then 1 else nth j lp 0)
      by (intros j; apply nth_after_set; lia).
    replace (Z.to_nat (anom_pts - index + 1))
      with (S (Z.to_nat (anom_pts - index))) by lia.
    cbn [firstn].
    destruct (Z.eqb_spec index anom_pts) as [-> | Hne].
    + exists lp'. rewrite Z.sub_diag. cbn [Z.to_nat firstn].
      split; [reflexivity |]. split; [exact Hlen' |].
      intros j. rewrite Hnth. split.
      * intros [Hj | []]. subst item. now rewrite Nat2Z.id, Nat.eqb_refl.
      * intros Hj. destruct (Nat.eqb_spec j (Z.to_nat item)); [| reflexivity].
        exfalso. apply Hj. left. lia.
    + destruct (IH lp' (index + 1)) as (r & Hr & Hlen & Hmark).
      * lia.
      * intros it Hit. rewrite Hlen'. apply Hrange. now right.
      * replace (anom_pts - (index + 1) + 1) with (anom_pts - index)
          in Hmark by lia.
        exists r. split; [exact Hr |]. split; [congruence |].
        intros j. destruct (Hmark j) as [Hin Hout]. split.
        -- intros [Hj | Hj]; [| now apply Hin].
           destruct (in_dec Z.eq_dec (Z.of_nat j)
                       (firstn (Z.to_nat (anom_pts - index)) rest))
             as [Hd | Hd]; [now apply Hin |].
           rewrite (Hout Hd), Hnth. subst item.
           now rewrite Nat2Z.id, Nat.eqb_refl.
        -- intros Hj. rewrite Hout by (intros H; apply Hj; now right).
           rewrite Hnth.
           destruct (Nat.eqb_spec j (Z.to_nat item)); [| reflexivity].
           exfalso. apply Hj. left. lia.
Qed.

(** X16.  The labelling loop marks one point more than [anom_pts]: for a ranking
    of valid positions and an [anom_pts] that is not negative, the labels
    returned are 1 exactly at the first [anom_pts + 1] entries of the
    ranking (at all of them when the ranking is shorter) and 0 elsewhere,
    because the loop tests [index == anom_pts] after it has set the
    label. *)
Theorem label_top_ranked_marks :
  forall (n_data : nat) (ranking_by_index : list Z) (anom_pts : Z),
    0 <= anom_pts ->
    (forall item, In item ranking_by_index -> 0 <= item < Z.of_nat n_data) ->
    exists label_pred,
      label_top_ranked n_data ranking_by_index anom_pts = Returns label_pred /\
      length label_pred = n_data /\
      forall j : nat,
        (In (Z.of_nat j)
            (firstn (Z.to_nat (anom_pts + 1)) ranking_by_index) ->
         nth j label_pred 0 = 1) /\
        (~ In (Z.of_nat j)
             (firstn (Z.to_nat (anom_pts + 1)) ranking_by_index) ->
         nth j label_pred 0 = 0).
Proof.
  intros n_data ranking anom_pts Hpos Hrange. unfold label_top_ranked.
  destruct (label_loop_marks anom_pts ranking (repeat 0 n_data) 0)
    as (r & Hr & Hlen & Hmark).
  - exact Hpos.
  - intros item Hitem. rewrite repeat_length. now apply Hrange.
  - rewrite Z.sub_0_r in Hmark. rewrite repeat_length in Hlen.
    exists r. split; [exact Hr |]. split; [exact Hlen |].
    intros j. destruct (Hmark j) as [Hin Hout]. split; [exact Hin |].
    intros Hj. rewrite (Hout Hj). apply nth_repeat.
Qed.

Lemma label_top_ranked_marks_witness :
  exists label_pred,
    label_top_ranked 4 [2; 0; 3; 1] 1 = Returns label_pred /\
    length label_pred = 4%nat /\
    forall j : nat,
      (In (Z.of_nat j) (firstn (Z.to_nat (1 + 1)) [2; 0; 3; 1]) ->
       nth j label_pred 0 = 1) /\
      (~ In (Z.of_nat j) (firstn (Z.to_nat (1 + 1)) [2; 0; 3; 1]) ->
       nth j label_pred 0 = 0).
Proof.
  apply (label_top_ranked_marks 4 [2; 0; 3; 1] 1).
  - lia.
  - intros item [<- | [<- | [<- | [<- | []]]]]; cbn; lia.
Defined.

(** ** A perfect ranking *)

Lemma StronglySorted_within {A : Type} (R : A -> A -> Prop) (l0 l : list A) :
  incl l l0 ->
  StronglySorted R l ->
  StronglySorted (fun x y => R x y /\ In x l0 /\ In y l0) l.
Proof.
  intros Hincl Hs. induction Hs as [| a l Hs IH Ha]; constructor.
  - apply IH. intros x Hx. apply Hincl. now right.
  - rewrite Forall_forall in *. intros y Hy.
    split; [now apply Ha |].
    split; apply Hincl; [now left | now right].
Qed.

(** X4.  When every anomaly has a lower score than every non-anomaly, the curve
    is 1 up to the number of anomalies [k], and [k / n] from there on. *)
Theorem precision_at_n_perfect_ranking :
  forall (labels : list bool) (scores : list Q),
    length labels = length scores ->
    (forall p q,
       In p (zip scores labels) -> In q (zip scores labels) ->
       snd p = true -> snd q = false -> (fst p < fst q)%Q) ->
    exists full,
      precision_at_n labels scores 0 = Returns full /\
      (forall n : nat,
         (1 <= n <= count_true labels)%nat ->
         exists x, nth_error full (n - 1) = Some x /\ (x == 1)%Q) /\
      (forall n : nat,
         (1 <= n)%nat -> (count_true labels <= n <= length scores)%nat ->
         nth_error full (n - 1)
         = Some (inject_Z (Z.of_nat (count_true labels))
                 / inject_Z (Z.of_nat n))%Q).
Proof.
  intros labels scores Hlen Hsep.
  set (ranked := sorted (zip scores labels)).
  assert (Hk : length (filter snd ranked) = count_true labels).
  { rewrite <- count_true_map_snd.
    apply count_true_perm, ranked_labels_perm, Hlen. }
  assert (HN : length ranked = length scores).
  { unfold ranked. rewrite sorted_length. now apply zip_length. }
  assert (Hcount : (count_true labels <= length scores)%nat).
  { rewrite <- Hlen. apply count_true_le_length. }
  set (R := fun x y : Q * bool => tuple_le x y /\ In x ranked /\ In y ranked).
  assert (Hs : StronglySorted R ranked).
  { apply StronglySorted_within; [apply incl_refl | apply sorted_sorted]. }
  assert (Hdown : forall x y, R x y -> snd y = true -> snd x = true).
  { intros x y (Hle & Hx & Hy) Hty.
    destruct (snd x) eqn:Hfx; [reflexivity | exfalso].
    assert (Hlt : (fst y < fst x)%Q).
    { apply Hsep; auto;
        eapply Permutation_in; try apply sorted_perm; assumption. }
    destruct Hle as [Hle | [Hle _]]; lra. }
  eexists. split; [apply precision_at_n_returns |].
  unfold effective_n_max. cbn [Z.eqb]. rewrite Nat2Z.id. fold ranked.
  split.
  - intros n Hn. rewrite nth_error_p_at by lia.
    eexists. split; [reflexivity |].
    unfold p_at. rewrite firstn_map, count_true_map_snd, cnt_all.
    + rewrite length_firstn, HN, Nat.min_l by lia.
      apply Qmult_inv_r.
      assert (0 < inject_Z (Z.of_nat n))%Q by (apply inject_Z_pos; lia).
      lra.
    + apply (sorted_down_prefix R snd Hdown ranked n Hs). lia.
  - intros n Hn Hkn. rewrite nth_error_p_at by lia.
    unfold p_at. rewrite firstn_map, count_true_map_snd. do 4 f_equal.
    rewrite <- Hk, (cnt_split snd n ranked), (cnt_none snd (skipn n ranked));
      [lia |].
    apply (sorted_down_suffix R snd Hdown ranked n Hs). lia.
Qed.

Lemma precision_at_n_perfect_ranking_witness :
  exists full,
    precision_at_n [false; true; true] [5; 2; 1]%Q 0 = Returns full /\
    (forall n : nat,
       (1 <= n <= count_true [false; true; true])%nat ->
       exists x, nth_error full (n - 1) = Some x /\ (x == 1)%Q) /\
    (forall n : nat,
       (1 <= n)%nat ->
       (count_true [false; true; true] <= n <= length [5; 2; 1]%Q)%nat ->
       nth_error full (n - 1)
       = Some (inject_Z (Z.of_nat (count_true [false; true; true]))
               / inject_Z (Z.of_nat n))%Q).
Proof.
  apply (precision_at_n_perfect_ranking [false; true; true] [5; 2; 1]%Q).
  - reflexivity.
  - intros p q [<- | [<- | [<- | []]]] [<- | [<- | [<- | []]]];
      cbn; intros; try discriminate; reflexivity.
Defined.
